(** * The voice assistant's command interpreter (src/App.tsx)

    A shallow embedding of the command dispatch of [App]: the string
    primitives of the host language that [handleCommand] relies on, the
    component state it reads and writes, the calls it makes to the browser,
    and the functions around it ([speak], [wishMe], [toggleListening], the
    recognition effect and the handlers it installs).

    Conventions of the model.

    - Strings are sequences of 8-bit code units, read as the code points
      U+0000 to U+00FF; every host primitive below is the restriction of
      the ECMAScript one to such strings.
    - A function of the component reads the state variables of the render
      that defined it.  What it captured is passed to it as a [Render];
      what the setters write goes to the [World].
    - [speak] suspends at its [await]; the rest of it runs when its 100 ms
      timer expires, which is taken to happen before the next event.
    - Recognition events are delivered by the object the latest run of
      the effect created.
    - State that only feeds the display ([content], [isProcessing],
      [showFeatures], the voice list) and the console log are left out. *)

From Stdlib Require Import String Ascii List Bool Arith NArith ZArith Lia Sorted.
From Stdlib Require DecimalString.
Import ListNotations.
Open Scope string_scope.

(** ** Host string primitives *)

Module JS.

Definition code (c : ascii) : N := N_of_ascii c.

Definition between (lo hi n : N) : bool := (lo <=? n)%N && (n <=? hi)%N.

(** [s.startsWith(pat)], the test behind every search below. *)
Fixpoint startsWith (pat s : string) : bool :=
  match pat, s with
  | EmptyString, _ => true
  | String a pat', String b s' => Ascii.eqb a b && startsWith pat' s'
  | String _ _, EmptyString => false
  end.

Fixpoint drop (n : nat) (s : string) : string :=
  match n, s with
  | O, _ => s
  | S n', String _ s' => drop n' s'
  | S _, EmptyString => EmptyString
  end.

(** [s.includes(pat)]: [pat] occurs in [s] at some position. *)
Fixpoint includes (s pat : string) : bool :=
  if startsWith pat s then true
  else match s with
       | EmptyString => false
       | String _ s' => includes s' pat
       end.

(** [s.replace(pat, repl)] with a string pattern: only the leftmost
    occurrence is replaced.  The replacements used by the component are
    empty, so no [$] pattern of the replacement text is involved. *)
Fixpoint replace (s pat repl : string) : string :=
  if startsWith pat s then repl ++ drop (String.length pat) s
  else match s with
       | EmptyString => EmptyString
       | String c s' => String c (replace s' pat repl)
       end.

(** Upper-casing of the letters a-z.  Under the [i] flag of a regular
    expression without the [u] flag, a pattern unit below 128 and an input
    unit are equated exactly when their images agree: canonicalisation
    never maps a unit of 128 or more below 128. *)
Definition upcase (c : ascii) : ascii :=
  if between 97 122 (code c) then ascii_of_N (code c - 32) else c.

Fixpoint startsWithI (pat s : string) : bool :=
  match pat, s with
  | EmptyString, _ => true
  | String a pat', String b s' =>
      Ascii.eqb (upcase a) (upcase b) && startsWithI pat' s'
  | String _ _, EmptyString => false
  end.

(** The first alternative of [/a1|a2|.../i] that matches at the start of
    [s]. *)
Fixpoint firstAlt (alts : list string) (s : string) : option string :=
  match alts with
  | [] => None
  | p :: ps => if startsWithI p s then Some p else firstAlt ps s
  end.

(** [s.replace(/a1|a2|.../i, repl)]: no [g] flag, so the leftmost match
    alone is replaced; at one position the alternatives are tried in
    order. *)
Fixpoint replaceRegExpI (alts : list string) (s repl : string) : string :=
  match firstAlt alts s with
  | Some p => repl ++ drop (String.length p) s
  | None =>
      match s with
      | EmptyString => EmptyString
      | String c s' => String c (replaceRegExpI alts s' repl)
      end
  end.

(** White space and line terminators below U+0100: TAB, LF, VT, FF, CR,
    SP and NBSP. *)
Definition isWhiteSpace (c : ascii) : bool :=
  existsb (N.eqb (code c)) [9; 10; 11; 12; 13; 32; 160]%N.

Fixpoint trimStart (s : string) : string :=
  match s with
  | EmptyString => EmptyString
  | String c s' => if isWhiteSpace c then trimStart s' else s
  end.

Fixpoint trimEnd (s : string) : string :=
  match s with
  | EmptyString => EmptyString
  | String c s' =>
      match trimEnd s' with
      | EmptyString => if isWhiteSpace c then EmptyString else String c EmptyString
      | t => String c t
      end
  end.

(** [s.trim()] *)
Definition trim (s : string) : string := trimEnd (trimStart s).

(** [s.toLowerCase()]: A-Z, and the letters U+00C0 to U+00DE other than
    the multiplication sign U+00D7, move up by 32. *)
Definition lowerUnit (c : ascii) : ascii :=
  let n := code c in
  if between 65 90 n || (between 192 222 n && negb (n =? 215)%N)
  then ascii_of_N (n + 32) else c.

Fixpoint toLowerCase (s : string) : string :=
  match s with
  | EmptyString => EmptyString
  | String c s' => String (lowerUnit c) (toLowerCase s')
  end.

(** [encodeURIComponent]: the unreserved set is A-Z a-z 0-9 and
    [- _ . ! ~ * ' ( )]; any other code point is written as the UTF-8
    octets of its encoding, each as [%XX] in upper-case hexadecimal. *)
Definition isUnreserved (c : ascii) : bool :=
  let n := code c in
  between 65 90 n || between 97 122 n || between 48 57 n
  || existsb (N.eqb n) [45; 95; 46; 33; 126; 42; 39; 40; 41]%N.

Definition hexDigit (n : N) : ascii :=
  if (n <? 10)%N then ascii_of_N (48 + n) else ascii_of_N (55 + n).

Definition percent (octet : N) : string :=
  String "%" (String (hexDigit (N.shiftr octet 4))
                     (String (hexDigit (N.land octet 15)) EmptyString)).

Definition utf8 (n : N) : list N :=
  if (n <? 128)%N then [n]
  else [N.lor 192 (N.shiftr n 6); N.lor 128 (N.land n 63)].

Definition encodeUnit (c : ascii) : string :=
  if isUnreserved c then String c EmptyString
  else String.concat EmptyString (map percent (utf8 (code c))).

Fixpoint encodeURIComponent (s : string) : string :=
  match s with
  | EmptyString => EmptyString
  | String c s' => encodeUnit c ++ encodeURIComponent s'
  end.

End JS.

(** ** Component state and host calls *)

Inductive Speaker := user | assistant.

(** [interface CommandHistory] *)
Record CommandHistory := {
  type : Speaker;
  message : string;
  timestamp : string
}.

Inductive Permission := granted | denied | prompt.

Inductive OscillatorType := sine | square.

(** The host environment: the readings of the clock, one per [new Date()]
    in the order they are taken, and the locale-dependent renderings of a
    reading. *)
Record Host := {
  clock : nat -> Z;
  toLocaleTimeString : Z -> string;
  (** [toLocaleString(undefined, {hour, minute, hour12: true})] *)
  toLocaleTime : Z -> string;
  (** [toLocaleString(undefined, {weekday, year, month, day})] *)
  toLocaleDate : Z -> string;
  getHours : Z -> Z
}.

(** The calls the component makes to the browser, in the order made. *)
Inductive Call :=
| PlayBeep (frequency : Z) (shape : OscillatorType)
| WindowOpen (url : string)
| SynthCancel
| SynthSpeak (text : string)
| RecognitionStart (id : nat)
| RecognitionStop (id : nat).

(** What the functions defined during one render have captured. *)
Record Render := {
  r_isMuted : bool;
  r_recognition : option nat
}.

(** A recognition object: its identity and the render whose functions its
    handlers call. *)
Record Recognition := {
  rec_id : nat;
  rec_render : Render
}.

Record World := {
  isListening : bool;
  isDarkMode : bool;
  isMuted : bool;
  micPermission : Permission;
  history : list CommandHistory;
  recognition : option Recognition;
  created : nat;          (* recognition objects constructed so far *)
  ticks : nat;            (* clock readings taken so far *)
  timers : list string;   (* utterances waiting for their 100 ms timer *)
  calls : list Call
}.

Definition initial : World :=
  {| isListening := false; isDarkMode := true; isMuted := false;
     micPermission := prompt; history := []; recognition := None;
     created := 0; ticks := 0; timers := []; calls := [] |}.

(** State-passing computations over the world. *)
Definition M (A : Type) : Type := World -> A * World.

Definition ret {A} (a : A) : M A := fun w => (a, w).

Definition bind {A B} (m : M A) (k : A -> M B) : M B :=
  fun w => let (a, w') := m w in k a w'.

Notation "x <- m ;; k" := (bind m (fun x => k))
  (at level 61, m at next level, right associativity).
Notation "m ;; k" := (bind m (fun _ => k))
  (at level 61, right associativity).

Definition exec {A} (m : M A) (w : World) : World := snd (m w).

Definition when (b : bool) (m : M unit) : M unit := if b then m else ret tt.

Definition setIsListening (b : bool) : M unit := fun w =>
  (tt, {| isListening := b; isDarkMode := isDarkMode w; isMuted := isMuted w;
          micPermission := micPermission w; history := history w;
          recognition := recognition w; created := created w;
          ticks := ticks w; timers := timers w; calls := calls w |}).

Definition setIsDarkMode (b : bool) : M unit := fun w =>
  (tt, {| isListening := isListening w; isDarkMode := b; isMuted := isMuted w;
          micPermission := micPermission w; history := history w;
          recognition := recognition w; created := created w;
          ticks := ticks w; timers := timers w; calls := calls w |}).

Definition setIsMuted (b : bool) : M unit := fun w =>
  (tt, {| isListening := isListening w; isDarkMode := isDarkMode w; isMuted := b;
          micPermission := micPermission w; history := history w;
          recognition := recognition w; created := created w;
          ticks := ticks w; timers := timers w; calls := calls w |}).

Definition setMicPermission (p : Permission) : M unit := fun w =>
  (tt, {| isListening := isListening w; isDarkMode := isDarkMode w;
          isMuted := isMuted w; micPermission := p; history := history w;
          recognition := recognition w; created := created w;
          ticks := ticks w; timers := timers w; calls := calls w |}).

(** [setHistory(prev => f(prev))] *)
Definition setHistory (f : list CommandHistory -> list CommandHistory) : M unit :=
  fun w =>
  (tt, {| isListening := isListening w; isDarkMode := isDarkMode w;
          isMuted := isMuted w; micPermission := micPermission w;
          history := f (history w); recognition := recognition w;
          created := created w; ticks := ticks w; timers := timers w;
          calls := calls w |}).

(** [new SpeechRecognition()] followed by [setRecognition]: the object is
    numbered by its order of construction. *)
Definition newRecognition (r : Render) : M unit := fun w =>
  (tt, {| isListening := isListening w; isDarkMode := isDarkMode w;
          isMuted := isMuted w; micPermission := micPermission w;
          history := history w;
          recognition := Some {| rec_id := created w; rec_render := r |};
          created := S (created w); ticks := ticks w; timers := timers w;
          calls := calls w |}).

(** [new Date()] *)
Definition newDate (host : Host) : M Z := fun w =>
  (clock host (ticks w),
   {| isListening := isListening w; isDarkMode := isDarkMode w;
      isMuted := isMuted w; micPermission := micPermission w;
      history := history w; recognition := recognition w;
      created := created w; ticks := S (ticks w); timers := timers w;
      calls := calls w |}).

Definition setTimers (ts : list string) : M unit := fun w =>
  (tt, {| isListening := isListening w; isDarkMode := isDarkMode w;
          isMuted := isMuted w; micPermission := micPermission w;
          history := history w; recognition := recognition w;
          created := created w; ticks := ticks w; timers := ts;
          calls := calls w |}).

Definition call (c : Call) : M unit := fun w =>
  (tt, {| isListening := isListening w; isDarkMode := isDarkMode w;
          isMuted := isMuted w; micPermission := micPermission w;
          history := history w; recognition := recognition w;
          created := created w; ticks := ticks w; timers := timers w;
          calls := (calls w ++ [c])%list |}).

(** The render a function defined now captures. *)
Definition currentRender (w : World) : Render :=
  {| r_isMuted := isMuted w;
     r_recognition := option_map rec_id (recognition w) |}.

(** ** The component's functions *)

(** [playBeep]: returns at once when muted, else starts the oscillator. *)
Definition playBeep (r : Render) (frequency : Z) (shape : OscillatorType) : M unit :=
  if r_isMuted r then ret tt else call (PlayBeep frequency shape).

(** [speak] up to its [await]: returns at once when muted; otherwise the
    utterance is built, synthesis in progress is cancelled and the rest of
    the function waits for a 100 ms timer. *)
Definition speak (r : Render) (text : string) : M unit :=
  if r_isMuted r then ret tt
  else call SynthCancel ;; fun w => setTimers (timers w ++ [text])%list w.

(** [speak] after its [await]: the utterance is handed to the synthesiser
    and an assistant entry is appended to the history. *)
Definition speakResume (host : Host) (text : string) : M unit :=
  call (SynthSpeak text) ;;
  t <- newDate host ;;
  setHistory (fun prev =>
    (prev ++ [{| type := assistant; message := text;
                 timestamp := toLocaleTimeString host t |}])%list).

Definition wishMe (host : Host) (r : Render) : M unit :=
  if r_isMuted r then ret tt
  else
    t <- newDate host ;;
    let hour := getHours host t in
    if (0 <=? hour)%Z && (hour <? 12)%Z then
      speak r "Good Morning! I'm your virtual assistant. How may I help you today?"
    else if (12 <=? hour)%Z && (hour <? 17)%Z then
      speak r "Good Afternoon! I'm your virtual assistant. How may I help you today?"
    else
      speak r "Good Evening! I'm your virtual assistant. How may I help you today?".

Definition helpText : string :=
"I can help you with various tasks. Here are some examples:
        Open websites like Google, YouTube, or Facebook,
        Check the time and date,
        Search the internet,
        Look up information on Wikipedia,
        Check the weather,
        Switch between dark and light mode,
        Play music,
        Use calculator.
        Just speak your command clearly.".

(** [handleCommand], called with the lower-cased transcript.  [r] is the
    render that defined it: its [isMuted], its [recognition] and its
    [speak]. *)
Definition handleCommand (host : Host) (r : Render) (message : string) : M unit :=
  when (negb (r_isMuted r)) (playBeep r 600 sine) ;;
  if JS.includes message "hey" || JS.includes message "hello"
     || JS.includes message "hi" then
    speak r "Hello! I'm your AI assistant. How may I help you today?"
  else if JS.includes message "dark mode" || JS.includes message "light mode" then
    setIsDarkMode (JS.includes message "dark mode") ;;
    speak r ("Switching to "
             ++ (if JS.includes message "dark mode" then "dark" else "light")
             ++ " mode")
  else if JS.includes message "play music" || JS.includes message "spotify" then
    call (WindowOpen "https://open.spotify.com") ;;
    speak r "Opening Spotify for you"
  else if JS.includes message "calculator" then
    call (WindowOpen "https://www.google.com/search?q=calculator") ;;
    speak r "Opening calculator"
  else if JS.includes message "open google" then
    call (WindowOpen "https://google.com") ;;
    speak r "Opening Google in a new tab"
  else if JS.includes message "open youtube" then
    call (WindowOpen "https://youtube.com") ;;
    speak r "Opening YouTube in a new tab"
  else if JS.includes message "open facebook" then
    call (WindowOpen "https://facebook.com") ;;
    speak r "Opening Facebook in a new tab"
  else if JS.includes message "time" then
    t <- newDate host ;;
    speak r ("The current time is " ++ toLocaleTime host t)
  else if JS.includes message "date" then
    t <- newDate host ;;
    speak r ("Today is " ++ toLocaleDate host t)
  else if JS.includes message "what is" || JS.includes message "who is"
          || JS.includes message "what are" then
    let searchQuery :=
      JS.trim (JS.replaceRegExpI ["what is"; "who is"; "what are"] message "") in
    call (WindowOpen ("https://www.google.com/search?q="
                      ++ JS.encodeURIComponent searchQuery)) ;;
    speak r ("I've found some information about " ++ searchQuery
             ++ ". Opening search results.")
  else if JS.includes message "wikipedia" then
    let searchQuery := JS.trim (JS.replace message "wikipedia" "") in
    call (WindowOpen ("https://en.wikipedia.org/wiki/"
                      ++ JS.encodeURIComponent searchQuery)) ;;
    speak r ("Opening Wikipedia article about " ++ searchQuery)
  else if JS.includes message "weather" then
    let location :=
      match JS.trim (JS.replace message "weather" "") with
      | EmptyString => "current location"
      | remainder => remainder
      end in
    call (WindowOpen ("https://www.google.com/search?q=weather+"
                      ++ JS.encodeURIComponent location)) ;;
    speak r ("Checking weather for " ++ location)
  else if JS.includes message "help" || JS.includes message "what can you do" then
    speak r helpText
  else if JS.includes message "stop listening" || JS.includes message "stop" then
    match r_recognition r with
    | Some id => call (RecognitionStop id)
    | None => ret tt
    end ;;
    speak r "Stopping voice recognition"
  else if JS.includes message "mute" || JS.includes message "unmute" then
    setIsMuted (negb (r_isMuted r)) ;;
    speak r (if r_isMuted r then "Sound enabled" else "Sound disabled")
  else
    call (WindowOpen ("https://www.google.com/search?q="
                      ++ JS.encodeURIComponent message)) ;;
    speak r "I'm searching for information about your request".

(** The handlers the recognition effect installs on the object [rc]. *)
Definition onstart (rc : Recognition) : M unit :=
  setIsListening true ;;
  when (negb (r_isMuted (rec_render rc))) (playBeep (rec_render rc) 700 sine).

Definition onend (rc : Recognition) : M unit :=
  setIsListening false ;;
  when (negb (r_isMuted (rec_render rc))) (playBeep (rec_render rc) 500 sine).

Definition onerror (rc : Recognition) (notAllowed : bool) : M unit :=
  when notAllowed (setMicPermission denied) ;;
  setIsListening false ;;
  when (negb (r_isMuted (rec_render rc))) (playBeep (rec_render rc) 300 square).

(** [onresult]: only a final result is logged and interpreted, after which
    the object stops itself. *)
Definition onresult (host : Host) (rc : Recognition) (isFinal : bool)
    (transcript : string) : M unit :=
  if isFinal then
    t <- newDate host ;;
    setHistory (fun prev =>
      (prev ++ [{| type := user; message := transcript;
                   timestamp := toLocaleTimeString host t |}])%list) ;;
    handleCommand host (rec_render rc) (JS.toLowerCase transcript) ;;
    call (RecognitionStop (rec_id rc))
  else ret tt.

(** The effect that depends on [micPermission] and [isMuted]: a new
    recognition object whose handlers belong to the current render, then
    the start-up announcement and greeting. *)
Definition recognitionEffect (host : Host) : M unit := fun w =>
  match micPermission w with
  | granted =>
      let r := currentRender w in
      (newRecognition r ;;
       when (negb (r_isMuted r)) (speak r "Initializing Advanced Virtual Assistant") ;;
       wishMe host r) w
  | _ => (tt, w)
  end.

(** [toggleListening]; the outcome of the permission request it makes
    when permission was denied arrives as a later event. *)
Definition toggleListening : M unit := fun w =>
  let r := currentRender w in
  match micPermission w with
  | denied =>
      when (negb (r_isMuted r))
           (speak r "Please grant microphone permission to use voice commands") w
  | _ =>
      match recognition w with
      | Some rc =>
          call (if isListening w then RecognitionStop (rec_id rc)
                else RecognitionStart (rec_id rc)) w
      | None => (tt, w)
      end
  end.

(** ** Sessions *)

(** What can happen to the mounted component.  The recognition events are
    delivered to the object of the latest run of the effect, while
    permission stands. *)
Inductive Event :=
| MicGranted
| MicDenied
| ClickMicrophone
| ClickMute
| ClickDarkMode
| Started
| Ended
| Error (notAllowed : bool)
| Result (isFinal : bool) (transcript : string).

Definition Permission_eqb (p q : Permission) : bool :=
  match p, q with
  | granted, granted | denied, denied | prompt, prompt => true
  | _, _ => false
  end.

(** The effect runs again after a render in which one of its dependencies
    changed. *)
Definition rerender (host : Host) (before : World) : M unit := fun w =>
  if Permission_eqb (micPermission before) (micPermission w)
     && Bool.eqb (isMuted before) (isMuted w)
  then (tt, w) else recognitionEffect host w.

Fixpoint fire (host : Host) (ts : list string) : M unit :=
  match ts with
  | [] => ret tt
  | text :: ts' => speakResume host text ;; fire host ts'
  end.

(** The pending 100 ms timers expire, in the order they were set. *)
Definition runTimers (host : Host) : M unit := fun w =>
  (setTimers [] ;; fire host (timers w)) w.

Definition listener (rc : option Recognition) (p : Permission)
    (h : Recognition -> M unit) : option (M unit) :=
  match rc, p with
  | Some rc, granted => Some (h rc)
  | _, _ => None
  end.

Definition handler (host : Host) (ev : Event) (w : World) : option (M unit) :=
  match ev with
  | MicGranted => Some (setMicPermission granted)
  | MicDenied => Some (setMicPermission denied)
  | ClickMicrophone => Some toggleListening
  | ClickMute => Some (setIsMuted (negb (isMuted w)))
  | ClickDarkMode => Some (setIsDarkMode (negb (isDarkMode w)))
  | Started => listener (recognition w) (micPermission w) onstart
  | Ended => listener (recognition w) (micPermission w) onend
  | Error notAllowed =>
      listener (recognition w) (micPermission w) (fun rc => onerror rc notAllowed)
  | Result isFinal transcript =>
      listener (recognition w) (micPermission w)
               (fun rc => onresult host rc isFinal transcript)
  end.

(** One event: its handler, the render it causes, and then the expiry of
    the timers set on the way.  [None] when the event cannot occur in
    [w]. *)
Definition step (host : Host) (ev : Event) (w : World) : option World :=
  match handler host ev w with
  | Some h => Some (exec (h ;; rerender host w ;; runTimers host) w)
  | None => None
  end.

Fixpoint run (host : Host) (evs : list Event) (w : World) : option World :=
  match evs with
  | [] => Some w
  | ev :: evs' =>
      match step host ev w with
      | Some w' => run host evs' w'
      | None => None
      end
  end.

(** ** The dispatch table of the specification *)

Inductive Rule :=
| RGreet | RDisplayMode | RMusic | RCalculator | ROpenGoogle | ROpenYoutube
| ROpenFacebook | RTime | RDate | RQuestion | RWikipedia | RWeather | RHelp
| RStop | RMute | RFallback.

Definition priority (k : Rule) : nat :=
  match k with
  | RGreet => 1 | RDisplayMode => 2 | RMusic => 3 | RCalculator => 4
  | ROpenGoogle => 5 | ROpenYoutube => 6 | ROpenFacebook => 7 | RTime => 8
  | RDate => 9 | RQuestion => 10 | RWikipedia => 11 | RWeather => 12
  | RHelp => 13 | RStop => 14 | RMute => 15 | RFallback => 16
  end.

(** The predicate of each rule, as section 4.1 words it. *)
Definition matches (k : Rule) (transcript : string) : bool :=
  let has := JS.includes transcript in
  match k with
  | RGreet => has "hey" || has "hello" || has "hi"
  | RDisplayMode => has "dark mode" || has "light mode"
  | RMusic => has "play music" || has "spotify"
  | RCalculator => has "calculator"
  | ROpenGoogle => has "open google"
  | ROpenYoutube => has "open youtube"
  | ROpenFacebook => has "open facebook"
  | RTime => has "time"
  | RDate => has "date"
  | RQuestion => has "what is" || has "who is" || has "what are"
  | RWikipedia => has "wikipedia"
  | RWeather => has "weather"
  | RHelp => has "help" || has "what can you do"
  | RStop => has "stop listening" || has "stop"
  | RMute => has "mute" || has "unmute"
  | RFallback => true
  end.

Definition rules : list Rule :=
  [RGreet; RDisplayMode; RMusic; RCalculator; ROpenGoogle; ROpenYoutube;
   ROpenFacebook; RTime; RDate; RQuestion; RWikipedia; RWeather; RHelp;
   RStop; RMute].

(** First match wins; the fallback when no rule matches. *)
Definition interpret (transcript : string) : Rule :=
  match find (fun k => matches k transcript) rules with
  | Some k => k
  | None => RFallback
  end.

(** The action of each rule, as section 4.1 describes it, for the render
    [r] in force. *)
Definition action (host : Host) (r : Render) (k : Rule) (transcript : string)
    : M unit :=
  match k with
  | RGreet => speak r "Hello! I'm your AI assistant. How may I help you today?"
  | RDisplayMode =>
      let dark := JS.includes transcript "dark mode" in
      setIsDarkMode dark ;;
      speak r ("Switching to " ++ (if dark then "dark" else "light") ++ " mode")
  | RMusic =>
      call (WindowOpen "https://open.spotify.com") ;;
      speak r "Opening Spotify for you"
  | RCalculator =>
      call (WindowOpen "https://www.google.com/search?q=calculator") ;;
      speak r "Opening calculator"
  | ROpenGoogle =>
      call (WindowOpen "https://google.com") ;;
      speak r "Opening Google in a new tab"
  | ROpenYoutube =>
      call (WindowOpen "https://youtube.com") ;;
      speak r "Opening YouTube in a new tab"
  | ROpenFacebook =>
      call (WindowOpen "https://facebook.com") ;;
      speak r "Opening Facebook in a new tab"
  | RTime =>
      t <- newDate host ;;
      speak r ("The current time is " ++ toLocaleTime host t)
  | RDate =>
      t <- newDate host ;;
      speak r ("Today is " ++ toLocaleDate host t)
  | RQuestion =>
      let query :=
        JS.trim (JS.replaceRegExpI ["what is"; "who is"; "what are"] transcript "") in
      call (WindowOpen ("https://www.google.com/search?q="
                        ++ JS.encodeURIComponent query)) ;;
      speak r ("I've found some information about " ++ query
               ++ ". Opening search results.")
  | RWikipedia =>
      let article := JS.trim (JS.replace transcript "wikipedia" "") in
      call (WindowOpen ("https://en.wikipedia.org/wiki/"
                        ++ JS.encodeURIComponent article)) ;;
      speak r ("Opening Wikipedia article about " ++ article)
  | RWeather =>
      let rest := JS.trim (JS.replace transcript "weather" "") in
      let location := if String.eqb rest "" then "current location" else rest in
      call (WindowOpen ("https://www.google.com/search?q=weather+"
                        ++ JS.encodeURIComponent location)) ;;
      speak r ("Checking weather for " ++ location)
  | RHelp => speak r helpText
  | RStop =>
      match r_recognition r with
      | Some id => call (RecognitionStop id)
      | None => ret tt
      end ;;
      speak r "Stopping voice recognition"
  | RMute =>
      setIsMuted (negb (r_isMuted r)) ;;
      speak r (if r_isMuted r then "Sound enabled" else "Sound disabled")
  | RFallback =>
      call (WindowOpen ("https://www.google.com/search?q="
                        ++ JS.encodeURIComponent transcript)) ;;
      speak r "I'm searching for information about your request"
  end.

(** The table-driven interpreter: the cue, then the action of the one
    rule that [interpret] selects. *)
Definition dispatch (host : Host) (r : Render) (transcript : string) : M unit :=
  when (negb (r_isMuted r)) (playBeep r 600 sine) ;;
  action host r (interpret transcript) transcript.

(** ** Observations *)

Definition opened (cs : list Call) : list string :=
  flat_map (fun c => match c with WindowOpen url => [url] | _ => [] end) cs.

Definition spoken (cs : list Call) : list string :=
  flat_map (fun c => match c with SynthSpeak text => [text] | _ => [] end) cs.

(** The calls made to [window.speechSynthesis]. *)
Definition synthCalls (cs : list Call) : list Call :=
  filter (fun c => match c with SynthCancel | SynthSpeak _ => true | _ => false end) cs.

Definition Speaker_eqb (a b : Speaker) : bool :=
  match a, b with
  | user, user | assistant, assistant => true
  | _, _ => false
  end.

Definition entries (who : Speaker) (h : list CommandHistory) : list CommandHistory :=
  filter (fun e => Speaker_eqb (type e) who) h.

(** The lines the component speaks on its own account: the start-up
    announcement, the greeting of [wishMe] and the permission prompt of
    [toggleListening]. *)
Definition announcements : list string :=
  ["Initializing Advanced Virtual Assistant";
   "Good Morning! I'm your virtual assistant. How may I help you today?";
   "Good Afternoon! I'm your virtual assistant. How may I help you today?";
   "Good Evening! I'm your virtual assistant. How may I help you today?";
   "Please grant microphone permission to use voice commands"].

Definition isAnnouncement (e : CommandHistory) : bool :=
  existsb (String.eqb (message e)) announcements.

(** The assistant entries that answer a command. *)
Definition replies (h : list CommandHistory) : list CommandHistory :=
  filter (fun e => negb (isAnnouncement e)) (entries assistant h).


(** A host for examples: the clock advances by a second per reading and
    renderings show the reading in seconds. *)
Definition seconds (t : Z) : string :=
  DecimalString.NilZero.string_of_int (Z.to_int (t / 1000)).

Definition exampleHost : Host :=
  {| clock := fun k => (Z.of_nat k * 1000)%Z;
     toLocaleTimeString := seconds;
     toLocaleTime := seconds;
     toLocaleDate := seconds;
     getHours := fun t => ((t / 3600000) mod 24)%Z |}.

Definition unmuted : Render := {| r_isMuted := false; r_recognition := None |}.
Definition muted : Render := {| r_isMuted := true; r_recognition := None |}.


(** The history entry for [text] stamped with the [k]-th clock reading. *)
Definition logged (host : Host) (who : Speaker) (text : string) (k : nat)
    : CommandHistory :=
  {| type := who; message := text;
     timestamp := toLocaleTimeString host (clock host k) |}.

(** Spelling up to the case of the letters a-z, and the phrases an
    alternation matches under the [i] flag. *)
Fixpoint upcaseAll (s : string) : string :=
  match s with
  | EmptyString => EmptyString
  | String c s' => String (JS.upcase c) (upcaseAll s')
  end.

Definition spells (alts : list string) (phrase : string) : Prop :=
  exists p, In p alts /\ upcaseAll phrase = upcaseAll p.

(** ** Invariants of a session *)

(** The handlers of the recognition object in state belong to a render
    with the current mute flag, whenever permission stands. *)
Definition Fresh (w : World) : Prop :=
  micPermission w = granted ->
  exists rc, recognition w = Some rc /\ r_isMuted (rec_render rc) = isMuted w.

(** The timestamps of [h] render clock readings numbered from [lo] up to
    but not including [hi], taken in the order of the entries. *)
Definition Stamped (host : Host) (lo hi : nat) (h : list CommandHistory) : Prop :=
  exists ks,
    map timestamp h = map (fun k => toLocaleTimeString host (clock host k)) ks
    /\ StronglySorted lt ks
    /\ Forall (fun k => lo <= k < hi) ks.

(** What one event may append to the history: for a final result, the
    user's entry first and then assistant entries, at most one of them a
    reply; for any other event, announcements only. *)
Definition Block (host : Host) (ev : Event) (lo : nat) (added : list CommandHistory)
    : Prop :=
  match ev with
  | Result true transcript =>
      exists rest,
        added = logged host user transcript lo :: rest
        /\ entries user rest = []
        /\ List.length (replies rest) <= 1
  | _ => entries user added = [] /\ replies added = []
  end.

(** The render [r] with sound on. *)
Definition withSound (r : Render) : Render :=
  {| r_isMuted := false; r_recognition := r_recognition r |}.

(** A command handled to the end: [handleCommand], then the timer of its
    reply. *)
Definition turn (host : Host) (r : Render) (message : string) : M unit :=
  handleCommand host r message ;; runTimers host.

(** ** Voice selection *)

(** The fields of a [SpeechSynthesisVoice] that [loadVoices] reads. *)
Record Voice := {
  name : string;
  lang : string
}.

Definition isPreferredEnglish (voice : Voice) : bool :=
  JS.includes (lang voice) "en"
  && (JS.includes (name voice) "Google" || JS.includes (name voice) "Premium").

Definition isUSEnglish (voice : Voice) : bool :=
  JS.includes (lang voice) "en-US".

(** The default voice of [loadVoices]: the first preferred English voice,
    else the first US English one, else the first voice; [undefined] is
    [None]. *)
Definition englishVoice (availableVoices : list Voice) : option Voice :=
  match find isPreferredEnglish availableVoices with
  | Some voice => Some voice
  | None =>
      match find isUSEnglish availableVoices with
      | Some voice => Some voice
      | None => hd_error availableVoices
      end
  end.

(** ** Further observations *)

(** The places [handleCommand] navigates to: five fixed pages and three
    addresses completed with encoded text. *)
Definition destinations : list string :=
  ["https://open.spotify.com";
   "https://www.google.com/search?q=calculator";
   "https://google.com";
   "https://youtube.com";
   "https://facebook.com";
   "https://www.google.com/search?q=";
   "https://en.wikipedia.org/wiki/";
   "https://www.google.com/search?q=weather+"].

Fixpoint allUnits (p : ascii -> bool) (s : string) : bool :=
  match s with
  | EmptyString => true
  | String c s' => p c && allUnits p s'
  end.

(** The units an encoded component is made of: the unreserved ones and
    the percent sign. *)
Definition isEncoded (c : ascii) : bool :=
  JS.isUnreserved c || Ascii.eqb c "%".

Definition isUpper (c : ascii) : bool := JS.between 65 90 (JS.code c).


Definition stops (cs : list Call) : list nat :=
  flat_map (fun c => match c with RecognitionStop id => [id] | _ => [] end) cs.

(** Recognition objects are numbered in the order of their construction:
    the one in state was made before any to come, and the one its handlers
    captured before it. *)
Definition Numbered (w : World) : Prop :=
  forall rc, recognition w = Some rc ->
    rec_id rc < created w
    /\ forall id, r_recognition (rec_render rc) = Some id -> id < rec_id rc.

(** Until the permission request is answered nothing has happened. *)
Definition Inert (w : World) : Prop :=
  micPermission w = prompt ->
  recognition w = None /\ history w = [] /\ calls w = [] /\ ticks w = 0
  /\ isListening w = false.


(** ** Facts about the string primitives *)

Lemma append_assoc (a b c : string) : (a ++ b) ++ c = a ++ (b ++ c).
Proof.
  induction a as [|x a IH]; simpl; [reflexivity | now rewrite IH].
Qed.

Lemma startsWith_iff (pat s : string) :
  JS.startsWith pat s = true <-> exists post, s = pat ++ post.
Proof.
  revert s; induction pat as [|a pat IH]; intros s; simpl.
  - split; [intros _; now exists s | reflexivity].
  - destruct s as [|b s].
    + split; [discriminate | intros [post H]; discriminate].
    + rewrite andb_true_iff, Ascii.eqb_eq, IH. split.
      * intros [-> [post ->]]. now exists post.
      * intros [post H]. injection H as -> ->. split; [reflexivity | now exists post].
Qed.

Lemma includes_startsWith (s pat : string) :
  JS.startsWith pat s = true -> JS.includes s pat = true.
Proof. intros H. destruct s; simpl; now rewrite H. Qed.

Lemma includes_iff (s pat : string) :
  JS.includes s pat = true <-> exists pre post, s = pre ++ pat ++ post.
Proof.
  split.
  - induction s as [|c s IH]; simpl.
    + destruct (JS.startsWith pat "") eqn:E; [|discriminate].
      intros _. apply startsWith_iff in E as [post E]. now exists "", post.
    + destruct (JS.startsWith pat (String c s)) eqn:E.
      * intros _. apply startsWith_iff in E as [post E]. now exists "", post.
      * intros H. destruct (IH H) as (pre & post & ->).
        now exists (String c pre), post.
  - intros (pre & post & ->). induction pre as [|c pre IH].
    + apply includes_startsWith, startsWith_iff. now exists post.
    + simpl. now destruct (JS.startsWith pat (String c (pre ++ pat ++ post))).
Qed.

(** Containment is transitive: a transcript that contains [big] contains
    whatever [big] contains. *)
Lemma includes_trans (s big small : string) :
  JS.includes big small = true -> JS.includes s big = true ->
  JS.includes s small = true.
Proof.
  rewrite !includes_iff. intros (p & q & ->) (pre & post & ->).
  exists (pre ++ p), (q ++ post). now rewrite !append_assoc.
Qed.

Lemma drop_app (a b : string) : JS.drop (String.length a) (a ++ b) = b.
Proof. induction a as [|x a IH]; simpl; [reflexivity | exact IH]. Qed.

(** [replace] with an empty replacement removes the leftmost occurrence
    of the pattern. *)
Lemma replace_leftmost (s pat : string) :
  JS.includes s pat = true ->
  exists pre post,
    s = pre ++ pat ++ post
    /\ JS.replace s pat "" = pre ++ post
    /\ forall pre' post', s = pre' ++ pat ++ post' ->
                          String.length pre <= String.length pre'.
Proof.
  induction s as [|c s IH]; simpl.
  - destruct (JS.startsWith pat "") eqn:E; [intros _|discriminate].
    apply startsWith_iff in E as [post E].
    destruct pat; simpl in E; [subst post|discriminate].
    exists "", "". simpl. repeat split. intros; apply Nat.le_0_l.
  - destruct (JS.startsWith pat (String c s)) eqn:E.
    + intros _. apply startsWith_iff in E as [post E]. exists "", post. simpl.
      split; [exact E|]. split; [|intros; apply Nat.le_0_l].
      rewrite E. now rewrite drop_app.
    + intros H. destruct (IH H) as (pre & post & -> & Hr & Hmin).
      exists (String c pre), post. simpl. split; [reflexivity|].
      split; [now rewrite Hr|].
      intros pre' post' E'. destruct pre' as [|c' pre'].
      * simpl in E'. assert (JS.startsWith pat (String c (pre ++ pat ++ post)) = true)
          by (apply startsWith_iff; now exists post').
        congruence.
      * simpl in E'. injection E' as _ E'. simpl.
        apply le_n_S. now apply (Hmin pre' post').
Qed.

Lemma upcaseAll_length (a b : string) :
  upcaseAll a = upcaseAll b -> String.length a = String.length b.
Proof.
  revert b; induction a as [|x a IH]; intros [|y b]; simpl; try discriminate.
  - reflexivity.
  - intros H. injection H as _ H. now rewrite (IH b H).
Qed.

Lemma startsWithI_iff (p s : string) :
  JS.startsWithI p s = true <->
  exists phrase post, s = phrase ++ post /\ upcaseAll phrase = upcaseAll p.
Proof.
  revert s; induction p as [|a p IH]; intros s; simpl.
  - split; [intros _; now exists "", s | reflexivity].
  - destruct s as [|b s].
    + split; [discriminate|].
      intros ([|x phrase] & post & H & E); discriminate.
    + rewrite andb_true_iff, Ascii.eqb_eq, IH. split.
      * intros [Hab (phrase & post & -> & E)].
        exists (String b phrase), post. simpl. now rewrite E, Hab.
      * intros ([|x phrase] & post & H & E); [discriminate|].
        simpl in H, E. injection H as -> ->. injection E as Hx E.
        split; [now rewrite Hx | now exists phrase, post].
Qed.

Lemma firstAlt_Some (alts : list string) (s p : string) :
  JS.firstAlt alts s = Some p -> In p alts /\ JS.startsWithI p s = true.
Proof.
  induction alts as [|q alts IH]; simpl; [discriminate|].
  destruct (JS.startsWithI q s) eqn:E.
  - intros H. injection H as <-. now split; [left|].
  - intros H. destruct (IH H). now split; [right|].
Qed.

Lemma firstAlt_None (alts : list string) (s p : string) :
  JS.firstAlt alts s = None -> In p alts -> JS.startsWithI p s = false.
Proof.
  induction alts as [|q alts IH]; simpl; [contradiction|].
  destruct (JS.startsWithI q s) eqn:E; [discriminate|].
  intros H [<-|Hin]; [exact E | now apply IH].
Qed.

(** [replaceRegExpI] with an empty replacement removes the leftmost
    phrase that spells one of the alternatives. *)
Lemma replaceRegExpI_leftmost (alts : list string) (s : string) :
  (exists pre phrase post, s = pre ++ phrase ++ post /\ spells alts phrase) ->
  exists pre phrase post,
    s = pre ++ phrase ++ post
    /\ spells alts phrase
    /\ JS.replaceRegExpI alts s "" = pre ++ post
    /\ forall pre' phrase' post',
         s = pre' ++ phrase' ++ post' -> spells alts phrase' ->
         String.length pre <= String.length pre'.
Proof.
  assert (Hhead : forall t phrase post p,
             t = phrase ++ post -> In p alts -> upcaseAll phrase = upcaseAll p ->
             JS.firstAlt alts t <> None).
  { intros t phrase post p -> Hin E Hnone.
    assert (JS.startsWithI p (phrase ++ post) = true)
      by (apply startsWithI_iff; now exists phrase, post).
    rewrite (firstAlt_None _ _ _ Hnone Hin) in *. discriminate. }
  assert (Hfound : forall t p, JS.firstAlt alts t = Some p ->
            exists phrase post, t = phrase ++ post /\ spells alts phrase
              /\ "" ++ JS.drop (String.length p) t = post).
  { intros t p Hp. apply firstAlt_Some in Hp as [Hin Hp].
    apply startsWithI_iff in Hp as (phrase & post & -> & E).
    exists phrase, post. split; [reflexivity|]. split; [now exists p|].
    simpl. rewrite <- (upcaseAll_length _ _ E). apply drop_app. }
  induction s as [|c s IH]; intros (pre0 & phrase0 & post0 & E0 & p0 & Hin0 & Hp0);
    simpl.
  - destruct (JS.firstAlt alts "") as [p|] eqn:Hp.
    + destruct (Hfound _ _ Hp) as (phrase & post & E & Hs & Hd).
      exists "", phrase, post. simpl. repeat split; try assumption.
      intros; apply Nat.le_0_l.
    + exfalso. destruct pre0; [simpl in E0|discriminate].
      exact (Hhead _ _ _ _ E0 Hin0 Hp0 Hp).
  - destruct (JS.firstAlt alts (String c s)) as [p|] eqn:Hp.
    + destruct (Hfound _ _ Hp) as (phrase & post & E & Hs & Hd).
      exists "", phrase, post. simpl. repeat split; try assumption.
      intros; apply Nat.le_0_l.
    + destruct pre0 as [|c0 pre0];
        [exfalso; simpl in E0; exact (Hhead _ _ _ _ E0 Hin0 Hp0 Hp)|].
      simpl in E0. injection E0 as _ E0.
      destruct IH as (pre & phrase & post & E & Hs & Hr & Hmin).
      { exists pre0, phrase0, post0. split; [exact E0 | now exists p0]. }
      exists (String c pre), phrase, post. simpl.
      split; [now rewrite E|]. split; [exact Hs|]. split; [now rewrite Hr|].
      intros pre' phrase' post' E' (p' & Hin' & Hp').
      destruct pre' as [|c' pre'];
        [exfalso; simpl in E'; exact (Hhead _ _ _ _ E' Hin' Hp' Hp)|].
      simpl in E'. injection E' as _ E'. simpl. apply le_n_S.
      apply (Hmin pre' phrase' post' E'). now exists p'.
Qed.

(** ** The ladder of [handleCommand] against the table *)

Lemma location_default (rest : string) :
  match rest with
  | EmptyString => "current location"
  | String c rest' => String c rest'
  end = if String.eqb rest "" then "current location" else rest.
Proof. now destruct rest. Qed.

Lemma handleCommand_dispatch (host : Host) (r : Render) (m : string) (w : World) :
  handleCommand host r m w = dispatch host r m w.
Proof.
  unfold handleCommand, dispatch, interpret, bind.
  destruct (when (negb (r_isMuted r)) (playBeep r 600 sine) w) as [u w1].
  cbn [find rules matches].
  repeat match goal with
         | |- context [if ?b then Some _ else _] =>
             destruct b;
             [cbn [action]; rewrite <- ?location_default; reflexivity|]
         end.
  reflexivity.
Qed.

Lemma interpret_iff (t : string) (k : Rule) :
  interpret t = k <->
  matches k t = true /\ forall j, priority j < priority k -> matches j t = false.
Proof.
  split.
  - intros <-. unfold interpret. cbn [find rules].
    repeat match goal with
           | |- context [if matches ?j t then _ else _] =>
               destruct (matches j t) eqn:?
           end;
      (split; [assumption || reflexivity |]);
      intros j Hj; destruct j; cbn [priority] in Hj; solve [lia | assumption].
  - intros [Hk Hlt]. unfold interpret. cbn [find rules].
    destruct k;
      repeat match goal with
             | |- context [if matches ?j t then _ else _] =>
                 first [ rewrite Hk
                       | rewrite (Hlt j) by (cbn [priority]; lia) ]
             end;
      reflexivity.
Qed.

(** ** Command dispatch *)

(** C1. Dispatch is first-match-wins over the priority order of the
    table: what [handleCommand] does is the action of exactly one rule, the
    rule [interpret] selects; that rule matches the transcript, every rule
    that matches has its priority number or a larger one, and it is the
    only rule with that property.  "what is the time" matches the question
    rule and yet triggers the time rule. *)
Theorem first_match_wins (host : Host) (r : Render) (transcript : string)
    (w : World) :
  handleCommand host r transcript w = dispatch host r transcript w
  /\ matches (interpret transcript) transcript = true
  /\ (forall k, matches k transcript = true ->
        priority (interpret transcript) <= priority k)
  /\ (forall k, matches k transcript = true ->
        (forall j, matches j transcript = true -> priority k <= priority j) ->
        k = interpret transcript)
  /\ matches RQuestion "what is the time" = true
  /\ interpret "what is the time" = RTime.
Proof.
  destruct (proj1 (interpret_iff transcript _) eq_refl) as [Hm Hlt].
  split; [apply handleCommand_dispatch|].
  split; [exact Hm|].
  assert (Hle : forall k, matches k transcript = true ->
                          priority (interpret transcript) <= priority k).
  { intros k Hk. destruct (Nat.le_gt_cases (priority (interpret transcript)) (priority k))
      as [Hle|Hgt]; [exact Hle|].
    rewrite (Hlt k Hgt) in Hk. discriminate. }
  split; [exact Hle|].
  split; [|split; reflexivity].
  intros k Hk Hmin. symmetry. apply interpret_iff. split; [exact Hk|].
  intros j Hj. destruct (matches j transcript) eqn:E; [|reflexivity].
  specialize (Hmin j E). lia.
Qed.

Lemma turn_dispatch (host : Host) (r : Render) (m : string) (w : World) :
  exec (turn host r m) w =
  exec (when (negb (r_isMuted r)) (playBeep r 600 sine) ;;
        action host r (interpret m) m ;; runTimers host) w.
Proof.
  unfold turn, exec, bind. rewrite handleCommand_dispatch.
  unfold dispatch, bind.
  now destruct (when (negb (r_isMuted r)) (playBeep r 600 sine) w).
Qed.

(** Evaluates a turn whose rule is known by [H], in a world without
    pending timers. *)
Ltac run_turn H :=
  rewrite ?turn_dispatch, ?H;
  match goal with r : Render |- _ => destruct r as [[|] ?] end;
  match goal with w : World |- _ => destruct w end;
  simpl in *; subst; simpl;
  unfold opened, spoken; rewrite ?flat_map_app; simpl;
  rewrite ?app_nil_r, <- ?app_assoc.

(** C6. A transcript that matches no rule falls through to the fallback:
    the whole transcript, URL-encoded, is searched for on Google, and the
    reply (none when muted) is the fixed confirmation.  "xyzzy" is such a
    transcript. *)
Theorem fallback_searches (host : Host) (r : Render) (transcript : string)
    (w : World) :
  timers w = [] ->
  (forall k, k <> RFallback -> matches k transcript = false) ->
  let w' := exec (turn host r transcript) w in
  let reply := "I'm searching for information about your request" in
  interpret transcript = RFallback
  /\ opened (calls w') =
     (opened (calls w)
      ++ [("https://www.google.com/search?q="
           ++ JS.encodeURIComponent transcript)%string])%list
  /\ spoken (calls w') =
     (spoken (calls w) ++ if r_isMuted r then [] else [reply])%list
  /\ history w' =
     (history w
      ++ if r_isMuted r then [] else [logged host assistant reply (ticks w)])%list
  /\ isDarkMode w' = isDarkMode w /\ isMuted w' = isMuted w
  /\ forall k, k <> RFallback -> matches k "xyzzy" = false.
Proof.
  intros Ht Hnone.
  assert (H : interpret transcript = RFallback).
  { apply interpret_iff. split; [reflexivity|].
    intros j Hj. apply Hnone. intros ->. cbn in Hj. lia. }
  cbv zeta. split; [exact H|].
  split; [|split; [|split; [|split; [|split]]]];
    try (run_turn H; reflexivity).
  intros k Hk. destruct k; try reflexivity. congruence.
Qed.

Lemma fallback_searches_witness :
  opened (calls (exec (turn exampleHost unmuted "xyzzy") initial)) =
  ["https://www.google.com/search?q=xyzzy"].
Proof.
  refine (proj1 (proj2 (fallback_searches exampleHost unmuted "xyzzy" initial
                          eq_refl _))).
  intros k Hk. destruct k; try reflexivity. congruence.
Defined.

(** C4. When the display-mode rule fires, the dark-mode flag becomes true
    if the transcript contains "dark mode", and false if it contains
    "light mode" and not "dark mode"; the reply (none when muted) names the
    mode the flag now has. *)
Theorem display_mode_rule (host : Host) (r : Render) (transcript : string)
    (w : World) :
  timers w = [] ->
  interpret transcript = RDisplayMode ->
  let w' := exec (turn host r transcript) w in
  let reply :=
    "Switching to " ++ (if isDarkMode w' then "dark" else "light") ++ " mode" in
  (JS.includes transcript "dark mode" = true -> isDarkMode w' = true)
  /\ (JS.includes transcript "light mode" = true ->
      JS.includes transcript "dark mode" = false -> isDarkMode w' = false)
  /\ spoken (calls w') =
     (spoken (calls w) ++ if r_isMuted r then [] else [reply])%list
  /\ history w' =
     (history w
      ++ if r_isMuted r then [] else [logged host assistant reply (ticks w)])%list
  /\ opened (calls w') = opened (calls w).
Proof.
  intros Ht H. cbv zeta.
  assert (E : isDarkMode (exec (turn host r transcript) w)
              = JS.includes transcript "dark mode")
    by (run_turn H; reflexivity).
  rewrite E.
  split; [intros ->; reflexivity|].
  split; [intros _ ->; reflexivity|].
  split; [|split]; run_turn H; reflexivity.
Qed.

Lemma display_mode_rule_witness :
  isDarkMode (exec (turn exampleHost unmuted "switch to light mode") initial) = false.
Proof.
  exact (proj1 (proj2 (display_mode_rule exampleHost unmuted "switch to light mode"
                         initial eq_refl eq_refl)) eq_refl eq_refl).
Defined.

(** C10. The greeting test is bare containment of "hey", "hello" or "hi":
    a transcript that contains the word "this" contains "hi", so the
    greeting fires whatever later rule the transcript was meant for, and
    nothing is opened.  "what is this" matches the question rule and is
    answered with the greeting. *)
Theorem greeting_preempts (host : Host) (r : Render) (transcript : string)
    (w : World) :
  timers w = [] ->
  JS.includes transcript "this" = true ->
  let w' := exec (turn host r transcript) w in
  let reply := "Hello! I'm your AI assistant. How may I help you today?" in
  interpret transcript = RGreet
  /\ opened (calls w') = opened (calls w)
  /\ spoken (calls w') =
     (spoken (calls w) ++ if r_isMuted r then [] else [reply])%list
  /\ matches RQuestion "what is this" = true
  /\ interpret "what is this" = RGreet.
Proof.
  intros Ht Hthis.
  assert (H : interpret transcript = RGreet).
  { apply interpret_iff. split.
    - cbn [matches]. rewrite (includes_trans transcript "this" "hi" eq_refl Hthis).
      now rewrite !orb_true_r.
    - intros j Hj. destruct j; cbn in Hj; lia. }
  cbv zeta. split; [exact H|].
  split; [|split; [|split; reflexivity]]; run_turn H; reflexivity.
Qed.

Lemma greeting_preempts_witness :
  spoken (calls (exec (turn exampleHost unmuted "what is this") initial)) =
  ["Hello! I'm your AI assistant. How may I help you today?"].
Proof.
  exact (proj1 (proj2 (proj2 (greeting_preempts exampleHost unmuted "what is this"
                                initial eq_refl eq_refl)))).
Defined.

(** ** The mute rule *)




(** C9. With the mute flag set, [speak] returns at once and changes
    nothing.  A command handled by a muted render therefore creates no
    utterance, makes no call to the synthesiser and leaves the history as
    it was, while it opens the same pages and sets the dark-mode flag as it
    would with sound on, and the mute rule still clears the flag: the
    voice command "unmute" gets no confirmation. *)
Theorem muted_speak_is_silent (host : Host) (r : Render) (text transcript : string)
    (w : World) :
  r_isMuted r = true ->
  let w' := exec (handleCommand host r transcript) w in
  let sound := exec (handleCommand host (withSound r) transcript) w in
  speak r text w = (tt, w)
  /\ timers w' = timers w
  /\ history w' = history w
  /\ synthCalls (calls w') = synthCalls (calls w)
  /\ opened (calls w') = opened (calls sound)
  /\ isDarkMode w' = isDarkMode sound
  /\ isMuted w' = match interpret transcript with
                  | RMute => false
                  | _ => isMuted w
                  end
  /\ interpret "unmute" = RMute
  /\ isMuted (exec (handleCommand host r "unmute") w) = false
  /\ history (exec (handleCommand host r "unmute") w) = history w
  /\ calls (exec (handleCommand host r "unmute") w) = calls w.
Proof.
  intros Hm. cbv zeta.
  split; [unfold speak; now rewrite Hm|].
  unfold exec. rewrite !handleCommand_dispatch. unfold dispatch, bind.
  destruct r as [m rc]. simpl in Hm. subst m.
  assert (Hu : interpret "unmute" = RMute) by reflexivity.
  rewrite Hu.
  destruct (interpret transcript) eqn:H;
    destruct w, rc; simpl;
    unfold opened, synthCalls; rewrite ?flat_map_app, ?filter_app; simpl;
    rewrite ?app_nil_r;
    repeat split; reflexivity.
Qed.

Lemma muted_speak_is_silent_witness :
  history (exec (handleCommand exampleHost muted "open youtube") initial) = []
  /\ opened (calls (exec (handleCommand exampleHost muted "open youtube") initial))
     = ["https://youtube.com"].
Proof.
  pose proof (muted_speak_is_silent exampleHost muted "" "open youtube" initial
                eq_refl) as H.
  cbv zeta in H. split; [apply H|].
  exact (proj1 (proj2 (proj2 (proj2 (proj2 H))))).
Defined.

(** ** The rules that search *)

(** C7. When the weather rule fires, the leftmost "weather" is removed
    from the transcript and what remains, trimmed, is the location, or
    "current location" when nothing remains; the weather search for that
    location is opened and the reply (none when muted) names it. *)
Theorem weather_rule (host : Host) (r : Render) (transcript : string) (w : World) :
  timers w = [] ->
  interpret transcript = RWeather ->
  exists pre post,
    transcript = pre ++ "weather" ++ post
    /\ (forall pre' post', transcript = pre' ++ "weather" ++ post' ->
                           String.length pre <= String.length pre')
    /\ let rest := JS.trim (pre ++ post) in
       let location := if String.eqb rest "" then "current location" else rest in
       let w' := exec (turn host r transcript) w in
       let reply := "Checking weather for " ++ location in
       opened (calls w') =
       (opened (calls w)
        ++ [("https://www.google.com/search?q=weather+"
             ++ JS.encodeURIComponent location)%string])%list
       /\ spoken (calls w') =
          (spoken (calls w) ++ if r_isMuted r then [] else [reply])%list
       /\ history w' =
          (history w
           ++ if r_isMuted r then [] else [logged host assistant reply (ticks w)])%list.
Proof.
  intros Ht H.
  destruct (proj1 (interpret_iff _ _) H) as [Hk _]. cbn [matches] in Hk.
  destruct (replace_leftmost _ _ Hk) as (pre & post & E & Hr & Hmin).
  exists pre, post. split; [exact E|]. split; [exact Hmin|].
  cbv zeta. rewrite <- Hr. clear E Hr Hmin Hk.
  split; [|split]; run_turn H; reflexivity.
Qed.

Lemma weather_rule_witness :
  exists pre post,
    "weather in paris" = pre ++ "weather" ++ post
    /\ opened (calls (exec (turn exampleHost unmuted "weather in paris") initial)) =
       [("https://www.google.com/search?q=weather+"
         ++ JS.encodeURIComponent
              (if String.eqb (JS.trim (pre ++ post)) "" then "current location"
               else JS.trim (pre ++ post)))%string].
Proof.
  destruct (weather_rule exampleHost unmuted "weather in paris" initial
              eq_refl eq_refl) as (pre & post & E & _ & Ho & _).
  exists pre, post. split; [exact E | exact Ho].
Defined.

(** C5. When the question rule fires, the leftmost phrase that spells
    "what is", "who is" or "what are" is removed from the transcript; what
    remains, trimmed, is URL-encoded into the Google search that is opened,
    and the reply (none when muted) names it.  For "what is the capital of
    france" the query is "the capital of france". *)
Theorem question_rule (host : Host) (r : Render) (transcript : string) (w : World) :
  timers w = [] ->
  interpret transcript = RQuestion ->
  (exists pre phrase post,
     transcript = pre ++ phrase ++ post
     /\ spells ["what is"; "who is"; "what are"] phrase
     /\ (forall pre' phrase' post',
           transcript = pre' ++ phrase' ++ post' ->
           spells ["what is"; "who is"; "what are"] phrase' ->
           String.length pre <= String.length pre')
     /\ let query := JS.trim (pre ++ post) in
        let w' := exec (turn host r transcript) w in
        let reply :=
          "I've found some information about " ++ query
          ++ ". Opening search results." in
        opened (calls w') =
        (opened (calls w)
         ++ [("https://www.google.com/search?q="
              ++ JS.encodeURIComponent query)%string])%list
        /\ spoken (calls w') =
           (spoken (calls w) ++ if r_isMuted r then [] else [reply])%list
        /\ history w' =
           (history w
            ++ if r_isMuted r then []
               else [logged host assistant reply (ticks w)])%list)
  /\ interpret "what is the capital of france" = RQuestion
  /\ opened (calls (exec (turn host r "what is the capital of france") w)) =
     (opened (calls w)
      ++ ["https://www.google.com/search?q=the%20capital%20of%20france"])%list
  /\ spoken (calls (exec (turn host r "what is the capital of france") w)) =
     (spoken (calls w)
      ++ if r_isMuted r then []
         else ["I've found some information about the capital of france. Opening search results."])%list.
Proof.
  intros Ht H. split.
  - destruct (proj1 (interpret_iff _ _) H) as [Hk _]. cbn [matches] in Hk.
    destruct (replaceRegExpI_leftmost ["what is"; "who is"; "what are"] transcript)
      as (pre & phrase & post & E & Hs & Hr & Hmin).
    { apply orb_true_iff in Hk as [Hk|Hk]; [apply orb_true_iff in Hk as [Hk|Hk]|];
        apply includes_iff in Hk as (pre & post & ->);
        eexists pre, _, post; (split; [reflexivity|]);
        eexists; (split; [|reflexivity]); simpl; auto. }
    exists pre, phrase, post. split; [exact E|]. split; [exact Hs|].
    split; [exact Hmin|].
    cbv zeta. rewrite <- Hr. clear E Hr Hmin Hk Hs.
    split; [|split]; run_turn H; reflexivity.
  - clear H. assert (H : interpret "what is the capital of france" = RQuestion)
      by reflexivity.
    split; [exact H|].
    split; run_turn H; reflexivity.
Qed.

Lemma question_rule_witness :
  opened (calls (exec (turn exampleHost unmuted "what is the capital of france")
                   initial)) =
  ["https://www.google.com/search?q=the%20capital%20of%20france"].
Proof.
  exact (proj1 (proj2 (proj2 (question_rule exampleHost unmuted
                                "what is the capital of france" initial
                                eq_refl eq_refl)))).
Defined.

(** ** Sessions *)

Lemma exec_bind {A B} (m : M A) (k : A -> M B) (w : World) :
  exec (bind m k) w = exec (k (fst (m w))) (exec m w).
Proof. unfold exec, bind. now destruct (m w). Qed.

Lemma exec_handleCommand (host : Host) (r : Render) (m : string) (w : World) :
  exec (handleCommand host r m) w = exec (dispatch host r m) w.
Proof. unfold exec. now rewrite handleCommand_dispatch. Qed.

(** Evaluation of a handler on a world given field by field, with case
    analysis on the tests that remain. *)
Ltac evaluate :=
  cbv beta iota zeta delta
    [exec bind ret when call speak speakResume playBeep wishMe
     setIsListening setIsDarkMode setIsMuted setMicPermission setHistory
     newRecognition newDate setTimers currentRender action rerender
     recognitionEffect toggleListening fire runTimers onstart onend onerror
     Permission_eqb Bool.eqb negb andb option_map fst snd
     isListening isDarkMode isMuted micPermission history recognition created
     ticks timers calls r_isMuted r_recognition rec_id rec_render];
  cbn [app].

Ltac crunch :=
  repeat (evaluate;
          match goal with
          | |- context [if ?b then _ else _] => destruct b
          end);
  evaluate.

Ltac close_fresh HF :=
  let Hg := fresh "Hg" in
  intros Hg; try discriminate;
  first [ exact (HF Hg) | eexists; split; reflexivity ].

Ltac close_added :=
  first [ exists []; split; [rewrite <- ?app_assoc, ?app_nil_r; reflexivity|]
        | eexists [_]; split; [rewrite <- ?app_assoc; reflexivity|]
        | eexists [_; _]; split; [rewrite <- ?app_assoc; reflexivity|]
        | eexists [_; _; _]; split; [rewrite <- ?app_assoc; reflexivity|] ].

Ltac close_sorted :=
  repeat first [ apply SSorted_nil | apply SSorted_cons
               | apply Forall_nil | apply Forall_cons ];
  simpl; lia.

Ltac close_stamped :=
  first [ exists []; split; [reflexivity|]
        | eexists [_]; split; [reflexivity|]
        | eexists [_; _]; split; [reflexivity|]
        | eexists [_; _; _]; split; [reflexivity|] ];
  split; close_sorted.

Ltac close_block :=
  first [ split; reflexivity
        | eexists; split; [reflexivity|]; split; [reflexivity | simpl; lia] ].

Ltac close_step HF :=
  split; [reflexivity|];
  split; [close_fresh HF|];
  split; [lia|];
  close_added; split; [close_block | close_stamped].

(** One event, from a world without pending timers and with fresh
    handlers: both properties hold again afterwards, the clock has not
    been read backwards, and the history has grown by a block of entries
    stamped with the readings taken during the event. *)
Lemma step_effect (host : Host) (ev : Event) (w w' : World) :
  timers w = [] -> Fresh w -> step host ev w = Some w' ->
  timers w' = [] /\ Fresh w' /\ ticks w <= ticks w'
  /\ exists added,
       history w' = (history w ++ added)%list
       /\ Block host ev (ticks w) added
       /\ Stamped host (ticks w) (ticks w') added.
Proof.
  intros Ht HF Hs. unfold step in Hs.
  destruct ev; cbn [handler listener] in Hs.
  1-5: injection Hs as <-;
       destruct w as [l d m p h [[id [rm rid]]|] c t ts cs];
       simpl in Ht; subst ts;
       unfold Fresh, Stamped, Block, entries, replies, isAnnouncement, logged in *;
       destruct p, m, l; crunch; solve [close_step HF].
  all: destruct (recognition w) as [rc|] eqn:Hrc; [|discriminate];
       destruct (micPermission w) eqn:Hp; try discriminate;
       injection Hs as <-; destruct (HF Hp) as (rc' & Hrc' & Hm);
       rewrite Hrc in Hrc'; injection Hrc' as <-;
       destruct rc as [id [m [rid|]]].
  7-8: destruct isFinal;
       [ unfold onresult; rewrite !exec_bind, exec_handleCommand;
         unfold dispatch; rewrite !exec_bind;
         destruct (interpret (JS.toLowerCase transcript)) |].
  all: destruct w; simpl in *; subst; destruct isMuted0;
       unfold Fresh, Stamped, Block, entries, replies, isAnnouncement, logged in *;
       crunch; solve [close_step HF].
Qed.












(** ** The history log *)




(** * Further properties of the component *)

(** ** Rules outside the claims *)

(** X1. When the Wikipedia rule fires, the leftmost "wikipedia" is removed
    from the transcript; what remains, trimmed, is URL-encoded into the
    article address that is opened, and the reply (none when muted) names
    it; no flag changes.  "wikipedia albert einstein" opens the article
    [albert%20einstein]. *)
Theorem wikipedia_rule (host : Host) (r : Render) (transcript : string) (w : World) :
  timers w = [] ->
  interpret transcript = RWikipedia ->
  (exists pre post,
     transcript = pre ++ "wikipedia" ++ post
     /\ (forall pre' post', transcript = pre' ++ "wikipedia" ++ post' ->
                            String.length pre <= String.length pre')
     /\ let article := JS.trim (pre ++ post) in
        let w' := exec (turn host r transcript) w in
        let reply := "Opening Wikipedia article about " ++ article in
        opened (calls w') =
        (opened (calls w)
         ++ [("https://en.wikipedia.org/wiki/"
              ++ JS.encodeURIComponent article)%string])%list
        /\ spoken (calls w') =
           (spoken (calls w) ++ if r_isMuted r then [] else [reply])%list
        /\ history w' =
           (history w
            ++ if r_isMuted r then []
               else [logged host assistant reply (ticks w)])%list
        /\ isDarkMode w' = isDarkMode w /\ isMuted w' = isMuted w)
  /\ interpret "wikipedia albert einstein" = RWikipedia
  /\ opened (calls (exec (turn host r "wikipedia albert einstein") w)) =
     (opened (calls w) ++ ["https://en.wikipedia.org/wiki/albert%20einstein"])%list.
Proof.
  intros Ht H. split.
  - destruct (proj1 (interpret_iff _ _) H) as [Hk _]. cbn [matches] in Hk.
    destruct (replace_leftmost _ _ Hk) as (pre & post & E & Hr & Hmin).
    exists pre, post. split; [exact E|]. split; [exact Hmin|].
    cbv zeta. rewrite <- Hr. clear E Hr Hmin Hk.
    split; [|split; [|split; [|split]]]; run_turn H; reflexivity.
  - clear H. assert (H : interpret "wikipedia albert einstein" = RWikipedia)
      by reflexivity.
    split; [exact H|]. run_turn H; reflexivity.
Qed.

Lemma wikipedia_rule_witness :
  opened (calls (exec (turn exampleHost unmuted "wikipedia albert einstein") initial)) =
  ["https://en.wikipedia.org/wiki/albert%20einstein"].
Proof.
  exact (proj2 (proj2 (wikipedia_rule exampleHost unmuted
                         "wikipedia albert einstein" initial eq_refl eq_refl))).
Defined.

(** X2. The music, calculator, Google, YouTube and Facebook rules each
    open their one fixed page and confirm with their fixed sentence (not
    when muted), whatever else the transcript says; no flag changes. *)
Theorem fixed_page_rules (host : Host) (r : Render) (transcript : string)
    (w : World) (page confirmation : string) :
  timers w = [] ->
  In (interpret transcript, page, confirmation)
     [(RMusic, "https://open.spotify.com", "Opening Spotify for you");
      (RCalculator, "https://www.google.com/search?q=calculator", "Opening calculator");
      (ROpenGoogle, "https://google.com", "Opening Google in a new tab");
      (ROpenYoutube, "https://youtube.com", "Opening YouTube in a new tab");
      (ROpenFacebook, "https://facebook.com", "Opening Facebook in a new tab")] ->
  let w' := exec (turn host r transcript) w in
  opened (calls w') = (opened (calls w) ++ [page])%list
  /\ spoken (calls w') =
     (spoken (calls w) ++ if r_isMuted r then [] else [confirmation])%list
  /\ history w' =
     (history w
      ++ if r_isMuted r then []
         else [logged host assistant confirmation (ticks w)])%list
  /\ isDarkMode w' = isDarkMode w /\ isMuted w' = isMuted w.
Proof.
  intros Ht Hin. cbv zeta. simpl in Hin.
  repeat match goal with
         | H : _ \/ _ |- _ => destruct H as [H|H]
         | H : False |- _ => destruct H
         end;
    injection Hin as H <- <-; symmetry in H;
    (split; [|split; [|split; [|split]]]); run_turn H; reflexivity.
Qed.

Lemma fixed_page_rules_witness :
  opened (calls (exec (turn exampleHost unmuted "please open youtube") initial)) =
  ["https://youtube.com"].
Proof.
  refine (proj1 (fixed_page_rules exampleHost unmuted "please open youtube" initial
                   _ _ eq_refl _)).
  right. right. right. left. reflexivity.
Defined.

(** X3. The time and date rules open nothing.  They read the clock once,
    also when muted, and the reply is the fixed lead-in followed by the
    host's rendering of that reading; the reply is logged with the next
    reading. *)
Theorem clock_rules (host : Host) (r : Render) (transcript : string) (w : World) :
  timers w = [] ->
  interpret transcript = RTime \/ interpret transcript = RDate ->
  let w' := exec (turn host r transcript) w in
  let reading := clock host (ticks w) in
  let reply :=
    match interpret transcript with
    | RTime => "The current time is " ++ toLocaleTime host reading
    | _ => "Today is " ++ toLocaleDate host reading
    end in
  opened (calls w') = opened (calls w)
  /\ spoken (calls w') =
     (spoken (calls w) ++ if r_isMuted r then [] else [reply])%list
  /\ history w' =
     (history w
      ++ if r_isMuted r then []
         else [logged host assistant reply (S (ticks w))])%list
  /\ ticks w' = (if r_isMuted r then 1 else 2) + ticks w
  /\ isDarkMode w' = isDarkMode w /\ isMuted w' = isMuted w.
Proof.
  intros Ht [H|H]; cbv zeta; rewrite H;
    (split; [|split; [|split; [|split; [|split]]]]); run_turn H; reflexivity.
Qed.

Lemma clock_rules_witness :
  spoken (calls (exec (turn exampleHost unmuted "what time is it") initial)) =
  ["The current time is 0"].
Proof.
  exact (proj1 (proj2 (clock_rules exampleHost unmuted "what time is it" initial
                         eq_refl (or_introl eq_refl)))).
Defined.

(** ** What [handleCommand] touches *)

Lemma allUnits_app (p : ascii -> bool) (a b : string) :
  allUnits p (a ++ b) = allUnits p a && allUnits p b.
Proof.
  induction a as [|c a IH]; simpl; [reflexivity|].
  now rewrite IH, andb_assoc.
Qed.

Lemma encodeUnit_encoded (c : ascii) : allUnits isEncoded (JS.encodeUnit c) = true.
Proof. destruct c as [[] [] [] [] [] [] [] []]; vm_compute; reflexivity. Qed.

Lemma encodeURIComponent_encoded (s : string) :
  allUnits isEncoded (JS.encodeURIComponent s) = true.
Proof.
  induction s as [|c s IH]; simpl; [reflexivity|].
  now rewrite allUnits_app, encodeUnit_encoded, IH.
Qed.

Ltac to_destination prefix :=
  solve [ eexists prefix, _;
          split; [simpl; tauto|];
          split; [reflexivity
                 | first [reflexivity | apply encodeURIComponent_encoded]] ].

Ltac find_destination :=
  first [ to_destination "https://open.spotify.com"
        | to_destination "https://www.google.com/search?q=calculator"
        | to_destination "https://google.com"
        | to_destination "https://youtube.com"
        | to_destination "https://facebook.com"
        | to_destination "https://www.google.com/search?q=weather+"
        | to_destination "https://en.wikipedia.org/wiki/"
        | to_destination "https://www.google.com/search?q=" ].

(** X4. Whatever the message, [handleCommand] opens at most one page, and
    none exactly when the greeting, display-mode, time, date, help, stop
    or mute rule fires.  An opened address is one of the eight
    destinations followed only by encoded text: unreserved units and
    percent signs, so no text of the transcript reaches the address
    unencoded. *)
Theorem handleCommand_navigation (host : Host) (r : Render) (message : string)
    (w : World) :
  exists added,
    calls (exec (handleCommand host r message) w) = (calls w ++ added)%list
    /\ List.length (opened added) <= 1
    /\ (opened added = [] <->
        In (interpret message)
           [RGreet; RDisplayMode; RTime; RDate; RHelp; RStop; RMute])
    /\ forall url, In url (opened added) ->
         exists prefix text,
           In prefix destinations
           /\ url = prefix ++ text
           /\ allUnits isEncoded text = true.
Proof.
  rewrite exec_handleCommand. unfold dispatch.
  destruct (interpret message) eqn:H;
    destruct r as [[|] [id|]]; destruct w; evaluate;
    (first [ exists []; split; [symmetry; apply app_nil_r|]
           | eexists; split; [rewrite <- ?app_assoc; reflexivity|] ]);
    simpl;
    (split; [lia|]);
    (split; [split; [intros Hx; try discriminate Hx; tauto
                    | intros Hx; try reflexivity; exfalso;
                      repeat (destruct Hx as [Hx|Hx]; try discriminate Hx);
                      exact Hx]|]);
    intros url Hu;
    repeat (destruct Hu as [Hu|Hu]; [subst url; find_destination|]);
    destruct Hu.
Qed.

(** X5. [handleCommand] leaves the history, the permission, the
    recognition object and the listening flag alone; it sets exactly one
    utterance timer when its render has sound and none when muted, and
    reads the clock at most once.  Only the display-mode rule can change
    the dark-mode flag and only the mute rule the mute flag. *)
Theorem handleCommand_frame (host : Host) (r : Render) (message : string)
    (w : World) :
  let w' := exec (handleCommand host r message) w in
  history w' = history w
  /\ micPermission w' = micPermission w
  /\ recognition w' = recognition w
  /\ isListening w' = isListening w
  /\ created w' = created w
  /\ (exists queued, timers w' = (timers w ++ queued)%list
                     /\ List.length queued = if r_isMuted r then 0 else 1)
  /\ ticks w <= ticks w' <= S (ticks w)
  /\ (isDarkMode w' <> isDarkMode w -> interpret message = RDisplayMode)
  /\ (isMuted w' <> isMuted w -> interpret message = RMute).
Proof.
  cbv zeta. rewrite exec_handleCommand. unfold dispatch.
  destruct (interpret message) eqn:H;
    destruct r as [[|] [id|]]; destruct w; evaluate;
    repeat split; try reflexivity; try lia; try congruence;
    first [ exists []; split; [symmetry; apply app_nil_r | reflexivity]
          | eexists [_]; split; reflexivity ].
Qed.

(** ** Letter case and white space *)


Lemma lowerUnit_not_upper (c : ascii) : isUpper (JS.lowerUnit c) = false.
Proof. destruct c as [[] [] [] [] [] [] [] []]; vm_compute; reflexivity. Qed.

Lemma toLowerCase_not_upper (s : string) :
  allUnits (fun c => negb (isUpper c)) (JS.toLowerCase s) = true.
Proof.
  induction s as [|c s IH]; simpl; [reflexivity|].
  now rewrite lowerUnit_not_upper, IH.
Qed.



(** Among units that are not capital letters, [upcase] is one-to-one. *)
Lemma upcase_inj (c d : ascii) :
  isUpper c = false -> isUpper d = false ->
  JS.upcase c = JS.upcase d -> c = d.
Proof.
  unfold isUpper, JS.upcase, JS.between, JS.code. intros Hc Hd.
  pose proof (N_ascii_bounded c) as Bc. pose proof (N_ascii_bounded d) as Bd.
  assert (Hcode : forall n, (n < 256)%N -> N_of_ascii (ascii_of_N n) = n)
    by (intros; now apply N_ascii_embedding).
  destruct ((97 <=? N_of_ascii c)%N && (N_of_ascii c <=? 122)%N) eqn:Lc;
    destruct ((97 <=? N_of_ascii d)%N && (N_of_ascii d <=? 122)%N) eqn:Ld;
    intros E; try exact E;
    apply (f_equal N_of_ascii) in E;
    rewrite ?Hcode in E by lia;
    rewrite ?andb_true_iff, ?andb_false_iff, ?N.leb_le, ?N.leb_gt in *.
  - rewrite <- (ascii_N_embedding c), <- (ascii_N_embedding d). f_equal. lia.
  - exfalso. lia.
  - exfalso. lia.
Qed.

Lemma upcaseAll_inj (a b : string) :
  allUnits (fun c => negb (isUpper c)) a = true ->
  allUnits (fun c => negb (isUpper c)) b = true ->
  upcaseAll a = upcaseAll b -> a = b.
Proof.
  revert b; induction a as [|x a IH]; intros [|y b]; simpl; try discriminate.
  - reflexivity.
  - rewrite !andb_true_iff, !negb_true_iff.
    intros [Hx Ha] [Hy Hb] E. injection E as Exy E.
    now rewrite (upcase_inj x y Hx Hy Exy), (IH b Ha Hb E).
Qed.

(** X6. [onresult] lower-cases the transcript before [handleCommand] sees
    it, so the phrase the question rule removes is literally "what is",
    "who is" or "what are", the leftmost such occurrence: the [i] flag of
    the regular expression never comes into play. *)
Theorem question_phrase_literal (transcript : string) :
  let message := JS.toLowerCase transcript in
  interpret message = RQuestion ->
  exists pre phrase post,
    message = pre ++ phrase ++ post
    /\ In phrase ["what is"; "who is"; "what are"]
    /\ JS.replaceRegExpI ["what is"; "who is"; "what are"] message "" = pre ++ post
    /\ forall pre' phrase' post',
         message = pre' ++ phrase' ++ post' ->
         In phrase' ["what is"; "who is"; "what are"] ->
         String.length pre <= String.length pre'.
Proof.
  cbv zeta. intros H.
  destruct (proj1 (interpret_iff _ _) H) as [Hk _]. cbn [matches] in Hk.
  destruct (replaceRegExpI_leftmost ["what is"; "who is"; "what are"]
              (JS.toLowerCase transcript))
    as (pre & phrase & post & E & (p & Hin & Hp) & Hr & Hmin).
  { apply orb_true_iff in Hk as [Hk|Hk]; [apply orb_true_iff in Hk as [Hk|Hk]|];
      apply includes_iff in Hk as (pre & post & ->);
      eexists pre, _, post; (split; [reflexivity|]);
      eexists; (split; [|reflexivity]); simpl; auto. }
  exists pre, phrase, post. split; [exact E|].
  assert (Hlow : allUnits (fun c => negb (isUpper c)) phrase = true).
  { pose proof (toLowerCase_not_upper transcript) as Hl.
    rewrite E, !allUnits_app, !andb_true_iff in Hl. tauto. }
  assert (Hphrase : phrase = p).
  { apply upcaseAll_inj; [exact Hlow | | exact Hp].
    simpl in Hin. repeat (destruct Hin as [<-|Hin]; [reflexivity|]). destruct Hin. }
  subst p. split; [exact Hin|]. split; [exact Hr|].
  intros pre' phrase' post' E' Hin'. apply (Hmin pre' phrase' post' E').
  now exists phrase'.
Qed.

Lemma question_phrase_literal_witness :
  exists pre phrase post,
    JS.toLowerCase "Who Is Ada Lovelace" = pre ++ phrase ++ post
    /\ In phrase ["what is"; "who is"; "what are"]
    /\ JS.replaceRegExpI ["what is"; "who is"; "what are"]
         (JS.toLowerCase "Who Is Ada Lovelace") "" = pre ++ post.
Proof.
  destruct (question_phrase_literal "Who Is Ada Lovelace" eq_refl)
    as (pre & phrase & post & E & Hin & Hr & _).
  exists pre, phrase, post. repeat split; assumption.
Defined.

(** ** Invariants of sessions *)

(** Case analysis on one event of a session: [prepare] unfolds what the
    goal is about, [close] settles each evaluated case. *)
Ltac session_ui Ht Hs w prepare close :=
  injection Hs as <-;
  destruct w as [l d m p h [[id [rm [rid|]]]|] c t ts cs];
  simpl in Ht; subst ts; simpl in *; subst;
  prepare; destruct p; try destruct m; try destruct l; crunch; close.

Ltac session_listener Ht HF Hs w pre prepare close :=
  let rc := fresh "rc" in
  let Hrc := fresh "Hrc" in
  let Hp := fresh "Hp" in
  destruct (recognition w) as [rc|] eqn:Hrc; [|discriminate];
  destruct (micPermission w) eqn:Hp; try discriminate;
  injection Hs as <-;
  let rc' := fresh "rc" in
  let Hrc' := fresh "Hrc" in
  let Hm := fresh "Hm" in
  destruct (HF Hp) as (rc' & Hrc' & Hm);
  rewrite Hrc in Hrc'; injection Hrc' as <-;
  destruct rc as [id [m [rid|]]];
  pre;
  destruct w as [l d mu p h rcx c t ts cs]; simpl in *; subst;
  prepare; try destruct mu; try destruct m; crunch; close.

Ltac session_result :=
  unfold onresult; rewrite !exec_bind, exec_handleCommand;
  unfold dispatch; rewrite !exec_bind;
  match goal with
  | |- context [interpret ?m] => destruct (interpret m) eqn:?
  end.

Ltac session_step Ht HF Hs prepare close :=
  unfold step in Hs;
  match type of Hs with
  | context [handler _ ?ev ?w] =>
      destruct ev as [| | | | | | |?|[|] ?]; cbn [handler listener] in Hs;
      [ session_ui Ht Hs w prepare close
      | session_ui Ht Hs w prepare close
      | session_ui Ht Hs w prepare close
      | session_ui Ht Hs w prepare close
      | session_ui Ht Hs w prepare close
      | session_listener Ht HF Hs w idtac prepare close
      | session_listener Ht HF Hs w idtac prepare close
      | session_listener Ht HF Hs w idtac prepare close
      | session_listener Ht HF Hs w session_result prepare close
      | session_listener Ht HF Hs w idtac prepare close ]
  end.


Lemma step_numbered (host : Host) (ev : Event) (w w' : World) :
  timers w = [] -> Fresh w -> Numbered w -> step host ev w = Some w' ->
  Numbered w'.
Proof.
  intros Ht HF HN Hs.
  session_step Ht HF Hs
    ltac:(unfold Numbered in *)
    ltac:(let rc0 := fresh "rc" in
          let E := fresh "E" in
          intros rc0 E;
          first
            [ discriminate E
            | injection E as <-; simpl;
              try (specialize (HN _ eq_refl); simpl in HN;
                   destruct HN as [HN1 HN2]);
              split;
              [ lia
              | let id0 := fresh "id" in
                let E2 := fresh "E" in
                intros id0 E2;
                first [ discriminate E2
                      | injection E2 as <-; lia
                      | now apply HN2 ] ] ]).
Qed.

Lemma step_inert (host : Host) (ev : Event) (w w' : World) :
  timers w = [] -> Fresh w -> Inert w -> step host ev w = Some w' ->
  Inert w'.
Proof.
  intros Ht HF HI Hs.
  session_step Ht HF Hs
    ltac:(unfold Inert in *)
    ltac:(let Hp' := fresh "Hp" in
          intros Hp';
          first
            [ discriminate Hp'
            | destruct (HI eq_refl) as (E1 & E2 & E3 & E4 & E5);
              simpl in E1, E2, E3, E4, E5;
              first [ discriminate E1 | discriminate E5
                    | subst; repeat split; reflexivity ] ]).
Qed.

Lemma run_invariants (host : Host) (evs : list Event) (w w' : World) :
  timers w = [] -> Fresh w -> Numbered w -> Inert w ->
  run host evs w = Some w' ->
  timers w' = [] /\ Fresh w' /\ Numbered w' /\ Inert w'.
Proof.
  revert w. induction evs as [|ev evs IH]; intros w Ht HF HN HI Hr; simpl in Hr.
  - injection Hr as <-. split; [|split; [|split]]; assumption.
  - destruct (step host ev w) as [w1|] eqn:Hs; [|discriminate].
    destruct (step_effect host ev w w1 Ht HF Hs) as (Ht1 & HF1 & _).
    apply (IH w1); try assumption.
    + exact (step_numbered host ev w w1 Ht HF HN Hs).
    + exact (step_inert host ev w w1 Ht HF HI Hs).
Qed.

Lemma reachable_invariants (host : Host) (evs : list Event) (w : World) :
  run host evs initial = Some w ->
  timers w = [] /\ Fresh w /\ Numbered w /\ Inert w.
Proof.
  apply run_invariants.
  - reflexivity.
  - intros H. discriminate H.
  - intros rc H. discriminate H.
  - intros _. repeat split.
Qed.



(** X13. Until the permission request is answered the component is
    inert: the history and the list of calls are empty and there is no
    recognition object, the microphone control changes nothing, and no
    result can be delivered. *)
Theorem inert_until_permission (host : Host) (evs : list Event) (w : World) :
  run host evs initial = Some w ->
  micPermission w = prompt ->
  history w = [] /\ calls w = [] /\ recognition w = None
  /\ step host ClickMicrophone w = Some w
  /\ forall isFinal transcript, step host (Result isFinal transcript) w = None.
Proof.
  intros Hr Hp. destruct (reachable_invariants host evs w Hr) as (Ht & _ & _ & HI).
  destruct (HI Hp) as (Hrc & Hh & Hc & Hk & Hl).
  split; [exact Hh|]. split; [exact Hc|]. split; [exact Hrc|]. split.
  - unfold step. cbn [handler]. f_equal.
    destruct w as [l d m p h rc c t ts cs]. simpl in *. subst.
    destruct m; crunch; reflexivity.
  - intros b t. unfold step. cbn [handler listener]. now rewrite Hrc.
Qed.

Lemma inert_until_permission_witness :
  exists w, run exampleHost [ClickMute; ClickMicrophone; ClickDarkMode] initial = Some w
            /\ history w = [] /\ calls w = [].
Proof.
  eexists. split; [vm_compute; reflexivity|].
  match goal with
  | |- history ?w = _ /\ _ =>
      generalize (inert_until_permission exampleHost
                    [ClickMute; ClickMicrophone; ClickDarkMode] w
                    ltac:(vm_compute; reflexivity) eq_refl)
  end.
  intros (Hh & Hc & _). split; assumption.
Defined.



(** X15. Handling a final result always ends by stopping the recognition
    object that delivered it.  The stop rule makes one more stop call,
    on the object its render captured: an older object, never the one
    that delivered the command. *)
Theorem final_result_stops (host : Host) (evs : list Event) (transcript : string)
    (w w' : World) :
  run host evs initial = Some w ->
  step host (Result true transcript) w = Some w' ->
  exists rc added,
    recognition w = Some rc
    /\ calls w' = (calls w ++ added)%list
    /\ stops added =
       (match interpret (JS.toLowerCase transcript), r_recognition (rec_render rc) with
        | RStop, Some id => [id]
        | _, _ => []
        end ++ [rec_id rc])%list
    /\ forall id, r_recognition (rec_render rc) = Some id -> id < rec_id rc.
Proof.
  intros Hr Hs. destruct (reachable_invariants host evs w Hr) as (Ht & HF & HN & _).
  unfold step in Hs. cbn [handler listener] in Hs.
  destruct (recognition w) as [rc|] eqn:Hrc; [|discriminate].
  destruct (micPermission w) eqn:Hp; try discriminate.
  injection Hs as <-. exists rc.
  destruct (HF Hp) as (rc' & Hrc' & Hm). rewrite Hrc in Hrc'. injection Hrc' as <-.
  destruct (HN rc Hrc) as [_ Hold].
  cut (exists added,
         calls (exec (onresult host rc true transcript;; rerender host w;;
                      runTimers host) w) = (calls w ++ added)%list
         /\ stops added =
            (match interpret (JS.toLowerCase transcript),
                   r_recognition (rec_render rc) with
             | RStop, Some id => [id]
             | _, _ => []
             end ++ [rec_id rc])%list).
  { intros (added & Hc & Hst). exists added. repeat split; assumption. }
  clear Hold HN HF.
  destruct rc as [id [m [rid|]]].
  all: session_result.
  all: destruct w as [l d mu p h rcx c t ts cs]; simpl in *; subst.
  all: destruct mu; crunch.
  all: eexists; split; [rewrite <- ?app_assoc; reflexivity | reflexivity].
Qed.

Lemma final_result_stops_witness :
  exists w w' rc added,
    run exampleHost [MicGranted; ClickMute] initial = Some w
    /\ step exampleHost (Result true "stop listening") w = Some w'
    /\ recognition w = Some rc
    /\ calls w' = (calls w ++ added)%list
    /\ stops added = [0; 1].
Proof.
  eexists. eexists.
  match goal with
  | |- exists rc added, run _ _ _ = Some ?w /\ step _ _ _ = Some ?w' /\ _ =>
      assert (Hr : run exampleHost [MicGranted; ClickMute] initial = Some w)
        by (vm_compute; reflexivity);
      assert (Hs : step exampleHost (Result true "stop listening") w = Some w')
        by (vm_compute; reflexivity)
  end.
  destruct (final_result_stops exampleHost _ _ _ _ Hr Hs)
    as (rc & added & Hrc & Hc & Hst & _).
  exists rc, added. repeat split; try assumption.
  rewrite Hst. vm_compute in Hrc. injection Hrc as <-. reflexivity.
Defined.



(** X14. An interim result leaves the state as it was: it is neither
    logged nor interpreted. *)
Theorem interim_results_ignored (host : Host) (evs : list Event) (w : World)
    (transcript : string) :
  run host evs initial = Some w ->
  micPermission w = granted ->
  step host (Result false transcript) w = Some w.
Proof.
  intros Hr Hp. destruct (reachable_invariants host evs w Hr) as (Ht & HF & _).
  destruct (HF Hp) as (rc & Hrc & Hrm).
  unfold step. cbn [handler listener]. rewrite Hrc, Hp. f_equal.
  destruct rc as [id [[|] rid]];
    destruct w as [l d mu p h rcx c t ts cs]; simpl in *; subst;
    crunch; reflexivity.
Qed.

Lemma interim_results_ignored_witness :
  exists w, run exampleHost [MicGranted] initial = Some w
            /\ step exampleHost (Result false "open you") w = Some w.
Proof.
  eexists.
  match goal with
  | |- run _ _ _ = Some ?w /\ _ =>
      assert (Hr : run exampleHost [MicGranted] initial = Some w)
        by (vm_compute; reflexivity)
  end.
  split; [exact Hr|].
  exact (interim_results_ignored exampleHost _ _ "open you" Hr eq_refl).
Defined.

(** X21. Pressing the dark-mode button twice restores the whole
    state. *)
Theorem dark_mode_button_twice (host : Host) (w : World) :
  timers w = [] ->
  run host [ClickDarkMode; ClickDarkMode] w = Some w.
Proof.
  intros Ht. destruct w as [l d mu p h rcx c t ts cs]; simpl in Ht; subst.
  unfold run, step. cbn [handler].
  destruct d, mu, p; crunch; reflexivity.
Qed.

Lemma dark_mode_button_twice_witness :
  run exampleHost [ClickDarkMode; ClickDarkMode] initial = Some initial.
Proof. exact (dark_mode_button_twice exampleHost initial eq_refl). Defined.

Lemma step_log_matches_speech (host : Host) (ev : Event) (w w' : World) :
  timers w = [] -> Fresh w -> step host ev w = Some w' ->
  map message (entries assistant (history w)) = spoken (calls w) ->
  map message (entries assistant (history w')) = spoken (calls w').
Proof.
  intros Ht HF Hs HE.
  session_step Ht HF Hs
    ltac:(unfold entries, spoken in *)
    ltac:(rewrite ?filter_app, ?map_app, ?flat_map_app; simpl;
          rewrite ?app_nil_r, <- ?app_assoc; simpl;
          rewrite ?HE; reflexivity).
Qed.

(** X18. The assistant entries of the history are, in order, exactly the
    texts handed to the synthesiser. *)
Theorem log_matches_speech (host : Host) (evs : list Event) (w : World) :
  run host evs initial = Some w ->
  map message (entries assistant (history w)) = spoken (calls w).
Proof.
  assert (G : forall evs w0 w,
             timers w0 = [] -> Fresh w0 ->
             map message (entries assistant (history w0)) = spoken (calls w0) ->
             run host evs w0 = Some w ->
             map message (entries assistant (history w)) = spoken (calls w)).
  { clear. induction evs as [|ev evs IH]; intros w0 w Ht HF HE Hr; simpl in Hr.
    - now injection Hr as <-.
    - destruct (step host ev w0) as [w1|] eqn:Hs; [|discriminate].
      destruct (step_effect host ev w0 w1 Ht HF Hs) as (Ht1 & HF1 & _).
      apply (IH w1 w Ht1 HF1); [|exact Hr].
      exact (step_log_matches_speech host ev w0 w1 Ht HF Hs HE). }
  intros Hr. apply (G evs initial w); try reflexivity; [|exact Hr].
  intros H. discriminate H.
Qed.

Lemma log_matches_speech_witness :
  exists w,
    run exampleHost [MicGranted; Result true "hello"; ClickMute;
                     Result true "open google"] initial = Some w
    /\ map message (entries assistant (history w)) = spoken (calls w).
Proof.
  eexists.
  match goal with
  | |- run _ ?evs _ = Some ?w /\ _ =>
      assert (Hr : run exampleHost evs initial = Some w)
        by (vm_compute; reflexivity)
  end.
  split; [exact Hr|]. exact (log_matches_speech exampleHost _ _ Hr).
Defined.

Lemma step_navigation (host : Host) (ev : Event) (w w' : World) :
  timers w = [] -> Fresh w -> step host ev w = Some w' ->
  exists pages,
    opened (calls w') = (opened (calls w) ++ pages)%list
    /\ List.length pages <= 1
    /\ (pages <> [] -> exists transcript, ev = Result true transcript).
Proof.
  intros Ht HF Hs.
  session_step Ht HF Hs
    ltac:(unfold opened in *)
    ltac:(rewrite ?flat_map_app; simpl; rewrite ?app_nil_r, <- ?app_assoc; simpl;
          first [ exists []; split; [symmetry; apply app_nil_r|];
                  split; [simpl; lia | intros Hx; now destruct Hx]
                | eexists [_]; split; [reflexivity|];
                  split; [simpl; lia | intros _; eexists; reflexivity] ]).
Qed.

(** X19. In a session a page is opened only by a final result, and at
    most one page by each. *)
Theorem navigation_only_on_command (host : Host) (evs : list Event) (ev : Event)
    (w w' : World) :
  run host evs initial = Some w ->
  step host ev w = Some w' ->
  exists pages,
    opened (calls w') = (opened (calls w) ++ pages)%list
    /\ List.length pages <= 1
    /\ (pages <> [] -> exists transcript, ev = Result true transcript).
Proof.
  intros Hr Hs. destruct (reachable_invariants host evs w Hr) as (Ht & HF & _).
  exact (step_navigation host ev w w' Ht HF Hs).
Qed.

Lemma navigation_only_on_command_witness :
  exists w w' pages,
    run exampleHost [MicGranted] initial = Some w
    /\ step exampleHost (Result true "play music") w = Some w'
    /\ opened (calls w') = (opened (calls w) ++ pages)%list
    /\ List.length pages <= 1.
Proof.
  eexists. eexists.
  match goal with
  | |- exists pages, run _ ?evs _ = Some ?w /\ step _ ?ev _ = Some ?w' /\ _ =>
      assert (Hr : run exampleHost evs initial = Some w)
        by (vm_compute; reflexivity);
      assert (Hs : step exampleHost ev w = Some w')
        by (vm_compute; reflexivity)
  end.
  destruct (navigation_only_on_command exampleHost _ _ _ _ Hr Hs)
    as (pages & Ho & Hl & _).
  exists pages. repeat split; assumption.
Defined.

(** ** The other functions of the component *)



(** X9. [wishMe] does nothing when muted.  With sound it reads the clock
    once, cancels speech in progress and queues exactly one greeting:
    the morning one for hours 0 to 11, the afternoon one for hours 12 to
    16, the evening one for every other hour. *)
Theorem wishMe_greeting (host : Host) (r : Render) (w : World) :
  let hour := getHours host (clock host (ticks w)) in
  let w' := exec (wishMe host r) w in
  (r_isMuted r = true -> w' = w)
  /\ (r_isMuted r = false ->
      exists greeting,
        timers w' = (timers w ++ [greeting])%list
        /\ calls w' = (calls w ++ [SynthCancel])%list
        /\ ticks w' = S (ticks w)
        /\ history w' = history w
        /\ ((0 <= hour < 12)%Z -> greeting =
              "Good Morning! I'm your virtual assistant. How may I help you today?")
        /\ ((12 <= hour < 17)%Z -> greeting =
              "Good Afternoon! I'm your virtual assistant. How may I help you today?")
        /\ ((hour < 0 \/ 17 <= hour)%Z -> greeting =
              "Good Evening! I'm your virtual assistant. How may I help you today?")).
Proof.
  cbv zeta. destruct r as [[|] rid]; simpl; split; try discriminate.
  - intros _. reflexivity.
  - intros _. unfold wishMe, exec, bind, newDate. simpl.
    destruct ((0 <=? getHours host (clock host (ticks w)))%Z
              && (getHours host (clock host (ticks w)) <? 12)%Z) eqn:E1;
      [|destruct ((12 <=? getHours host (clock host (ticks w)))%Z
                  && (getHours host (clock host (ticks w)) <? 17)%Z) eqn:E2];
      rewrite ?andb_true_iff, ?andb_false_iff, ?Z.leb_le, ?Z.ltb_lt,
        ?Z.leb_gt, ?Z.ltb_ge in *;
      destruct w; simpl in *;
      eexists; (split; [reflexivity|]); repeat split; try reflexivity;
      intros; try reflexivity; exfalso; lia.
Qed.

Lemma wishMe_greeting_witness :
  exists greeting,
    timers (exec (wishMe exampleHost unmuted) initial) = [greeting].
Proof.
  destruct (proj2 (wishMe_greeting exampleHost unmuted initial) eq_refl)
    as (greeting & Ht & _).
  exists greeting. exact Ht.
Defined.

(** X10. The default voice of [loadVoices] is undefined exactly when no
    voice is installed.  Otherwise it is one of the installed voices: a
    preferred English one whenever there is one, else a US English one
    whenever there is one, else the first voice of the list. *)
Theorem englishVoice_choice (availableVoices : list Voice) :
  (englishVoice availableVoices = None <-> availableVoices = [])
  /\ forall voice,
       englishVoice availableVoices = Some voice ->
       In voice availableVoices
       /\ (forall other, In other availableVoices ->
             isPreferredEnglish other = true -> isPreferredEnglish voice = true)
       /\ (forall other, In other availableVoices ->
             isUSEnglish other = true ->
             isPreferredEnglish voice = true \/ isUSEnglish voice = true)
       /\ ((forall other, In other availableVoices ->
              isPreferredEnglish other = false /\ isUSEnglish other = false) ->
           hd_error availableVoices = Some voice).
Proof.
  unfold englishVoice.
  destruct (find isPreferredEnglish availableVoices) as [v|] eqn:Ep.
  - apply find_some in Ep as [Hin Hp]. split.
    + split; [discriminate | intros ->; destruct Hin].
    + intros voice H. injection H as <-.
      split; [exact Hin|]. split; [intros _ _ _; exact Hp|].
      split; [intros _ _ _; now left|].
      intros Hnone. destruct (Hnone v Hin) as [Hn _]. congruence.
  - destruct (find isUSEnglish availableVoices) as [v|] eqn:Eu.
    + apply find_some in Eu as [Hin Hu]. split.
      * split; [discriminate | intros ->; destruct Hin].
      * intros voice H. injection H as <-.
        split; [exact Hin|]. split.
        { intros other Ho Hop.
          rewrite (find_none _ _ Ep other Ho) in Hop. discriminate. }
        split; [intros _ _ _; now right|].
        intros Hnone. destruct (Hnone v Hin) as [_ Hn]. congruence.
    + split.
      * destruct availableVoices; simpl; split; congruence.
      * intros voice H.
        split; [destruct availableVoices; simpl in H; [discriminate|];
                injection H as <-; now left|].
        split.
        { intros other Ho Hop.
          rewrite (find_none _ _ Ep other Ho) in Hop. discriminate. }
        split.
        { intros other Ho Hou.
          rewrite (find_none _ _ Eu other Ho) in Hou. discriminate. }
        intros _. exact H.
Qed.

Lemma englishVoice_choice_witness :
  In {| name := "Google US English"; lang := "en-US" |}
     [{| name := "Amelie"; lang := "fr-FR" |};
      {| name := "Samantha"; lang := "en-US" |};
      {| name := "Google US English"; lang := "en-US" |}].
Proof.
  exact (proj1 (proj2 (englishVoice_choice
                         [{| name := "Amelie"; lang := "fr-FR" |};
                          {| name := "Samantha"; lang := "en-US" |};
                          {| name := "Google US English"; lang := "en-US" |}])
                  _ eq_refl)).
Defined.

(** X8. Two alternatives in the ladder never decide anything: a message
    that contains "stop listening" contains "stop", and one that contains
    "unmute" contains "mute", so the stop rule is the test for "stop" and
    the mute rule the test for "mute". *)
Theorem redundant_alternatives (message : string) :
  matches RStop message = JS.includes message "stop"
  /\ matches RMute message = JS.includes message "mute".
Proof.
  cbn [matches]. split.
  - destruct (JS.includes message "stop listening") eqn:E; [|reflexivity].
    now rewrite (includes_trans message "stop listening" "stop" eq_refl E).
  - destruct (JS.includes message "unmute") eqn:E; [|now rewrite orb_false_r].
    now rewrite (includes_trans message "unmute" "mute" eq_refl E).
Qed.

Lemma trimEnd_idempotent (s : string) : JS.trimEnd (JS.trimEnd s) = JS.trimEnd s.
Proof.
  induction s as [|c s IH]; simpl; [reflexivity|].
  destruct (JS.trimEnd s) as [|x t] eqn:E.
  - destruct (JS.isWhiteSpace c) eqn:Ec; simpl; [reflexivity|].
    now rewrite Ec.
  - simpl in *. now rewrite IH.
Qed.

Lemma trimStart_head (s : string) :
  forall c rest, JS.trimStart s = String c rest -> JS.isWhiteSpace c = false.
Proof.
  induction s as [|x s IH]; simpl; [discriminate|].
  destruct (JS.isWhiteSpace x) eqn:E; [exact IH|].
  intros c rest H. now injection H as <- _.
Qed.

Lemma trimEnd_head (c : ascii) (rest : string) :
  JS.isWhiteSpace c = false ->
  exists rest', JS.trimEnd (String c rest) = String c rest'.
Proof.
  intros Hc. simpl. destruct (JS.trimEnd rest); rewrite ?Hc; eauto.
Qed.

Lemma trimEnd_last (s : string) :
  forall front c, JS.trimEnd s = front ++ String c "" -> JS.isWhiteSpace c = false.
Proof.
  induction s as [|x s IH]; simpl.
  - intros [|? ?] c H; discriminate.
  - destruct (JS.trimEnd s) as [|y t] eqn:E.
    + destruct (JS.isWhiteSpace x) eqn:Ex.
      * intros [|? ?] c H; discriminate.
      * intros [|? [|? ?]] c H; simpl in H; try discriminate.
        now injection H as <-.
    + intros [|z front] c H; simpl in H.
      * discriminate.
      * injection H as _ H. now apply (IH front c).
Qed.

(** X7. The text the question, Wikipedia and weather rules search for has
    been trimmed: it neither begins nor ends with white space, and
    trimming it again changes nothing. *)
Theorem search_text_is_trimmed (s : string) :
  let text := JS.trim s in
  JS.trim text = text
  /\ (forall c rest, text = String c rest -> JS.isWhiteSpace c = false)
  /\ (forall front c, text = front ++ String c "" -> JS.isWhiteSpace c = false).
Proof.
  cbv zeta. unfold JS.trim.
  assert (Hhead : forall c rest,
             JS.trimEnd (JS.trimStart s) = String c rest ->
             JS.isWhiteSpace c = false).
  { intros c rest H. destruct (JS.trimStart s) as [|x t] eqn:E; [discriminate|].
    pose proof (trimStart_head s x t E) as Hx.
    destruct (trimEnd_head x t Hx) as [rest' Hr].
    rewrite Hr in H. now injection H as <- _. }
  split; [|split; [exact Hhead | apply trimEnd_last]].
  destruct (JS.trimEnd (JS.trimStart s)) as [|c rest] eqn:E; [reflexivity|].
  assert (Hs : JS.trimStart (String c rest) = String c rest)
    by (simpl; now rewrite (Hhead c rest eq_refl)).
  rewrite Hs, <- E. apply trimEnd_idempotent.
Qed.

